(** * SublimeHermes, [kernel.py]: the kernel connection

    A shallow embedding of [KernelConnection] and of the two module-level
    helpers [extract_content] and [extract_data], followed by the properties
    of the message engine: the reply loop of [_communicate], the routing of
    a reply by message type and MIME type in the callback of
    [execute_code], the synchronous [get_complete], the text handler
    [_handle_text] and the worker loop of [AsyncCommunicator].

    Conventions of the embedding.
    - A value produced by [json.loads] is a [json] term.  A Python [dict]
      is an association list read with "first binding wins"; iterating it
      yields each key once, in order of first occurrence.
    - A Python call that may raise returns an [outcome]; [exn] lists the
      exception classes the code can meet.  All of them derive from
      [Exception], which is what the worker's [except Exception] catches.
    - Code with side effects threads its state explicitly.
    - A Python [str] is a [string]; [len] is [String.length]. *)

From Stdlib Require Import ZArith String Ascii List Lia.
From stdpp Require Import base option list strings gmap.

Open Scope string_scope.
Open Scope list_scope.
Open Scope Z_scope.
Set Warnings "-register-all".

(** ** Python values and exceptions *)

Inductive json : Type :=
  | JNull
  | JBool (b : bool)
  | JNum (n : Z)
  | JFloat (repr : string)
  | JStr (s : string)
  | JArr (items : list json)
  | JObj (fields : list (string * json)).

Inductive exn : Type :=
  | KeyError
  | TypeError
  | ValueError
  | AttributeError
  | OtherError (name : string).

Inductive outcome (A : Type) : Type :=
  | Ok (a : A)
  | Raise (e : exn).
Arguments Ok {A} a.
Arguments Raise {A} e.

Definition rbind {A B} (r : outcome A) (k : A -> outcome B) : outcome B :=
  match r with
  | Ok a => k a
  | Raise e => Raise e
  end.

Declare Scope py_scope.
Delimit Scope py_scope with py.
Notation "x <- r ;; k" := (rbind r (fun x => k))
  (at level 100, r at next level, right associativity) : py_scope.
Open Scope py_scope.

#[global] Instance exn_eq_dec : EqDecision exn.
Proof. solve_decision. Defined.

(** [d.get(k)] on the association list of a dict. *)
Fixpoint dict_get (fields : list (string * json)) (k : string) : option json :=
  match fields with
  | [] => None
  | (k', v) :: rest => if String.eqb k' k then Some v else dict_get rest k
  end.

(** The keys of a dict, each once, in order of first occurrence. *)
Definition dict_keys (fields : list (string * json)) : list string :=
  remove_dups (map fst fields).

(** [v[k]] for a string constant [k]: a dict is looked up, a list or a
    string wants an integer index, any other value is not subscriptable. *)
Definition subscript (v : json) (k : string) : outcome json :=
  match v with
  | JObj fields =>
      match dict_get fields k with
      | Some x => Ok x
      | None => Raise KeyError
      end
  | _ => Raise TypeError
  end.

(** [s.endswith(suffix)] on Python strings. *)
Definition str_endswith (s suffix : string) : bool :=
  let n := String.length s in
  let m := String.length suffix in
  if (m <=? n)%nat then String.eqb (substring (n - m) m s) suffix else false.

(** [v.endswith(suffix)]: only a [str] has the method. *)
Definition endswith (v : json) (suffix : string) : outcome bool :=
  match v with
  | JStr s => Ok (str_endswith s suffix)
  | _ => Raise AttributeError
  end.

(** [v == s] for a string [s]. *)
Definition eq_str (v : json) (s : string) : bool :=
  match v with
  | JStr s' => String.eqb s' s
  | _ => false
  end.

(** The one-character strings of a [str], as iteration yields them. *)
Fixpoint str_chars (s : string) : list json :=
  match s with
  | EmptyString => []
  | String c rest => JStr (String c EmptyString) :: str_chars rest
  end.

(** [for x in v]: the items a [for] loop visits. *)
Definition py_iter (v : json) : outcome (list json) :=
  match v with
  | JObj fields => Ok (map JStr (dict_keys fields))
  | JStr s => Ok (str_chars s)
  | JArr items => Ok items
  | _ => Raise TypeError
  end.

(** [s[:n]] for an integer [n] (a negative [n] counts from the end). *)
Definition slice_to (s : string) (n : Z) : string :=
  if 0 <=? n then substring 0 (Z.to_nat n) s
  else substring 0 (Z.to_nat (Z.of_nat (String.length s) + n)) s.

(** ** Message types *)

Definition JUPYTER_PROTOCOL_VERSION : string := "5.0".
Definition MSG_TYPE_EXECUTE_REQUEST : string := "execute_request".
Definition MSG_TYPE_EXECUTE_RESULT : string := "execute_result".
Definition MSG_TYPE_EXECUTE_REPLY : string := "execute_reply".
Definition MSG_TYPE_COMPLETE_REQUEST : string := "complete_request".
Definition MSG_TYPE_COMPLETE_REPLY : string := "complete_reply".
Definition MSG_TYPE_DISPLAY_DATA : string := "display_data".

(** ** Reply routing: [extract_content] and [extract_data] *)

(** The list comprehension evaluates, message by message, the condition
    [message['header']['msg_type'] == msg_type] and then, when it holds,
    [message['content']]; the first exception ends it. *)
Fixpoint extract_content (messages : list json) (msg_type : string)
  : outcome (list json) :=
  match messages with
  | [] => Ok []
  | message :: rest =>
      header <- subscript message "header" ;;
      t <- subscript header "msg_type" ;;
      if eq_str t msg_type then
        content <- subscript message "content" ;;
        contents <- extract_content rest msg_type ;;
        Ok (content :: contents)
      else extract_content rest msg_type
  end.

(** [try: return result['data']], and on [KeyError] the empty string. *)
Definition extract_data (result : json) : outcome json :=
  match subscript result "data" with
  | Ok data => Ok data
  | Raise KeyError => Ok (JStr EmptyString)
  | Raise e => Raise e
  end.

(** ** Channel transport: [_communicate]

    The websocket library is outside the repository, so the far end of an
    exchange is a parameter: what [create_connection] and [send] do, the
    frames [recv] hands over in arrival order, and the exception the
    receive raises once the peer has closed the channel.  A frame is either
    text that [json.loads] decodes or text it rejects. *)

Inductive recv_event : Type :=
  | RecvText (reply : json)
  | RecvGarbage.

Record connection : Type := {
  conn_open : option exn;
  conn_send : option exn;
  conn_frames : list recv_event;
  conn_closed : exn
}.

(** The [while True] loop: receive, decode, append, test the top-level
    [msg_type] of the frame, leave on a [_reply] suffix. *)
Fixpoint recv_loop (frames : list recv_event) (closed : exn)
    (replies : list json) : outcome (list json) :=
  match frames with
  | [] => Raise closed
  | RecvGarbage :: _ => Raise ValueError
  | RecvText reply :: rest =>
      let replies := replies ++ [reply] in
      t <- subscript reply "msg_type" ;;
      stop <- endswith t "_reply" ;;
      if stop : bool then Ok replies else recv_loop rest closed replies
  end.

Definition _communicate (kernel : json -> connection) (message : json)
  : outcome (list json) :=
  let sock := kernel message in
  match conn_open sock with
  | Some e => Raise e
  | None =>
      match conn_send sock with
      | Some e => Raise e
      | None => recv_loop (conn_frames sock) (conn_closed sock) []
      end
  end.

(** The [msg_type] the loop of [_communicate] reads: the top-level field. *)
Definition top_msg_type (frame : json) : option string :=
  match subscript frame "msg_type" with
  | Ok (JStr s) => Some s
  | _ => None
  end.

(** The [msg_type] [extract_content] reads: the one inside the header. *)
Definition header_msg_type (frame : json) : option string :=
  match subscript frame "header" with
  | Ok header =>
      match subscript header "msg_type" with
      | Ok (JStr s) => Some s
      | _ => None
      end
  | Raise _ => None
  end.

Definition is_reply (t : option string) : bool :=
  match t with
  | Some s => str_endswith s "_reply"
  | None => false
  end.

Definition not_reply (t : option string) : bool :=
  match t with
  | Some s => negb (str_endswith s "_reply")
  | None => false
  end.

(** ** Message construction: [_gen_header] and the two requests

    [uuid4().hex] and [datetime.now().isoformat()] are inputs. *)

Definition _gen_header (kernel_id msg_id now msg_type : string) : json :=
  JObj [("version", JStr JUPYTER_PROTOCOL_VERSION);
        ("kernel_id", JStr kernel_id);
        ("msg_id", JStr msg_id);
        ("datetime", JStr now);
        ("msg_type", JStr msg_type)].

Definition shell_message (header content : json) : json :=
  JObj [("header", header);
        ("parent_header", JObj []);
        ("channel", JStr "shell");
        ("content", content);
        ("metadata", JObj []);
        ("buffers", JObj [])].

Definition execute_request (kernel_id msg_id now code : string) : json :=
  shell_message (_gen_header kernel_id msg_id now MSG_TYPE_EXECUTE_REQUEST)
    (JObj [("code", JStr code);
           ("silent", JBool false);
           ("store_history", JBool true);
           ("user_expressions", JObj []);
           ("allow_stdin", JBool false)]).

Definition complete_request (kernel_id msg_id now code : string)
    (cursor_pos : Z) : json :=
  shell_message (_gen_header kernel_id msg_id now MSG_TYPE_COMPLETE_REQUEST)
    (JObj [("code", JStr code);
           ("cursor_pos", JNum cursor_pos);
           ("silent", JBool false);
           ("store_history", JBool true);
           ("user_expressions", JObj []);
           ("allow_stdin", JBool false)]).

(** ** The synchronous path: [get_complete]

    [content, = extract_content(...)] unpacks a list of exactly one item
    and raises [ValueError] on any other length. *)

Definition get_complete (kernel : json -> connection)
    (kernel_id msg_id now code : string) (cursor_pos : Z) : outcome json :=
  let message := complete_request kernel_id msg_id now code cursor_pos in
  reply <- _communicate kernel message ;;
  contents <- extract_content reply MSG_TYPE_COMPLETE_REPLY ;;
  match contents with
  | [content] => subscript content "matches"
  | _ => Raise ValueError
  end.

(** ** The output view and the handlers

    The scratch view of the editor is the sequence of texts appended to
    it; [_write_to_view] appends one. *)

Definition view : Type := list string.

Definition _write_to_view (text : string) (v : view) : view := v ++ [text].

Definition NL : string := String (ascii_of_nat 10) EmptyString.

(** [line + s] with [s] a [str]: defined on a [str] only. *)
Definition str_add (line : json) (s : string) : outcome string :=
  match line with
  | JStr l => Ok (l +:+ s)
  | _ => Raise TypeError
  end.

Fixpoint write_lines (lines : list json) (v : view) : outcome unit * view :=
  match lines with
  | [] => (Ok tt, v)
  | line :: rest =>
      match str_add line NL with
      | Ok text => write_lines rest (_write_to_view text v)
      | Raise e => (Raise e, v)
      end
  end.

(** [_handle_text]; the setting [max_shown_input_length] is an integer.
    [code] is the [str] given to [execute_code], [result] the payload found
    in the reply. *)
Definition _handle_text (max_shown_input_length : Z) (code : string)
    (result : json) (v : view) : outcome unit * view :=
  let code :=
    if Z.of_nat (String.length code) >? max_shown_input_length
    then slice_to code max_shown_input_length +:+ "..."
    else code in
  write_lines
    [JStr "input:"; JStr code; JStr "output:"; result; JStr "---"; JStr NL] v.

Definition display_handler : Type := json -> view -> outcome unit * view.
Definition result_handler : Type := string -> json -> view -> outcome unit * view.

(** What [_handle_png_display_data] takes from the standard library:
    [base64.b64decode] on the payload; the call
    [tempfile.TemporaryFile(delete=False, suffix=".png")], which raises
    or opens a file whose [name] formats as the given text (where
    [TemporaryFile] has no [delete] parameter, as on POSIX, the call is a
    [TypeError]); [out_file.write] on the decoded bytes, which may raise;
    and the closing of the file when the [with] block is left, which may
    raise as well. *)
Record png_platform : Type := {
  b64decode : json -> outcome string;
  temporary_file : outcome string;
  file_write : string -> option exn;
  file_close : option exn
}.

(** Leaving a [with] block: the file is closed whichever way the block
    ended, and an exception of the closing takes the place of the block's
    own outcome. *)
Definition with_exit (close : option exn) (block : outcome unit)
  : outcome unit :=
  match close with
  | Some e => Raise e
  | None => block
  end.

(** [_handle_png_display_data]: decode, open the file, and in the [with]
    block write the bytes, then the line to the view; the first exception
    ends the block. *)
Definition _handle_png_display_data (platform : png_platform)
  : display_handler :=
  fun data v =>
    match b64decode platform data with
    | Raise e => (Raise e, v)
    | Ok decoded =>
        match temporary_file platform with
        | Raise e => (Raise e, v)
        | Ok out_file =>
            let '(block, v') :=
              match file_write platform decoded with
              | Some e => (Raise e, v)
              | None =>
                  (Ok tt,
                   _write_to_view
                     ("Saved the figure to '" +:+ out_file +:+ "'." +:+ NL) v)
              end in
            (with_exit (file_close platform) block, v')
        end
    end.

(** ** The callback of [execute_code]

    The state of a callback is the view together with the record of the
    handler invocations made so far (a ghost log: one entry for each
    invocation, with the way the handler ended). *)

Inductive call : Type :=
  | DisplayCall (mime : string) (payload : json)
  | ResultCall (mime : string) (code : string) (payload : json).

Record hstate : Type := {
  st_view : view;
  st_calls : list (call * outcome unit)
}.

Definition invoked (s : hstate) : list call := map fst (st_calls s).

Definition M (A : Type) : Type := hstate -> outcome A * hstate.

Definition sret {A} (a : A) : M A := fun s => (Ok a, s).
Definition sraise {A} (e : exn) : M A := fun s => (Raise e, s).
Definition slift {A} (r : outcome A) : M A := fun s => (r, s).
Definition sbind {A B} (m : M A) (k : A -> M B) : M B :=
  fun s =>
    match m s with
    | (Ok a, s') => k a s'
    | (Raise e, s') => (Raise e, s')
    end.

Notation "x <~ m ;; k" := (sbind m (fun x => k))
  (at level 100, m at next level, right associativity) : py_scope.

(** [for x in xs: body]. *)
Fixpoint for_each {A} (xs : list A) (body : A -> M unit) : M unit :=
  match xs with
  | [] => sret tt
  | x :: rest => _ <~ body x ;; for_each rest body
  end.

(** [try: m except KeyError: pass]. *)
Definition except_KeyError_pass (m : M unit) : M unit :=
  fun s =>
    match m s with
    | (Raise KeyError, s') => (Ok tt, s')
    | r => r
    end.

Definition call_display (mime : string) (h : display_handler)
    (payload : json) : M unit :=
  fun s =>
    let '(r, v) := h payload (st_view s) in
    (r, {| st_view := v;
           st_calls := st_calls s ++ [(DisplayCall mime payload, r)] |}).

Definition call_result (mime : string) (h : result_handler) (code : string)
    (payload : json) : M unit :=
  fun s =>
    let '(r, v) := h code payload (st_view s) in
    (r, {| st_view := v;
           st_calls := st_calls s ++ [(ResultCall mime code payload, r)] |}).

(** The fields of a [KernelConnection] the message engine reads.  The two
    registries are the dicts [_handle_display_data] and [_run_commands]. *)
Record KernelConnection : Type := {
  _lang : string;
  _kernel_id : string;
  _handle_display_data : gmap string display_handler;
  _run_commands : gmap string result_handler;
  _max_shown_input_length : Z
}.

(** The registries [__init__] installs. *)
Definition __init__ (lang kernel_id : string) (max_shown_input_length : Z)
    (platform : png_platform) : KernelConnection :=
  {| _lang := lang;
     _kernel_id := kernel_id;
     _handle_display_data :=
       {[ "image/png" := _handle_png_display_data platform ]};
     _run_commands := {[ "text/plain" := _handle_text max_shown_input_length ]};
     _max_shown_input_length := max_shown_input_length |}.

(** The body of the inner loop over a display payload:
    [try: self._handle_display_data[mime_type](display_data[mime_type])]
    with [except KeyError: pass].  The callee is evaluated first; the
    registry has [str] keys only, so the lookup of a list or a dict is a
    [TypeError] (unhashable), that of any other value a plain miss.  When
    the lookup succeeds [mime_type] is a [str], and the payload is read by
    that string. *)
Definition display_one (self : KernelConnection)
    (display_data mime_type : json) : M unit :=
  except_KeyError_pass
    match mime_type with
    | JStr mime =>
        match _handle_display_data self !! mime with
        | Some handler =>
            payload <~ slift (subscript display_data mime) ;;
            call_display mime handler payload
        | None => sraise KeyError
        end
    | JArr _ | JObj _ => sraise TypeError
    | _ => sraise KeyError
    end.

(** The body of the loop over the execute result:
    [if mime_type in self._run_commands:] guards the same [try] block.
    The membership test is outside the [try]. *)
Definition result_one (self : KernelConnection) (code : string)
    (data mime_type : json) : M unit :=
  match mime_type with
  | JStr mime =>
      match _run_commands self !! mime with
      | Some handler =>
          except_KeyError_pass
            (payload <~ slift (subscript data mime) ;;
             call_result mime handler code payload)
      | None => sret tt
      end
  | JArr _ | JObj _ => sraise TypeError
  | _ => sret tt
  end.

(** The body of the loop over the [display_data] blocks. *)
Definition display_block (self : KernelConnection) (display_content : json)
  : M unit :=
  display_data <~ slift (extract_data display_content) ;;
  mime_types <~ slift (py_iter display_data) ;;
  for_each mime_types (display_one self display_data).

(** First half of the callback: the [display_data] blocks. *)
Definition display_step (self : KernelConnection) (reply : list json)
  : M unit :=
  display_contents <~ slift (extract_content reply MSG_TYPE_DISPLAY_DATA) ;;
  for_each display_contents (display_block self).

(** Second half: the [execute_result] blocks.  [result, = result_content]
    raises [ValueError] when the list has more than one item; the empty
    list has returned before.  [result_block] is what follows the
    unpacking. *)
Definition result_block (self : KernelConnection) (code : string)
    (result : json) : M unit :=
  data <~ slift (extract_data result) ;;
  mime_types <~ slift (py_iter data) ;;
  for_each mime_types (result_one self code data).

Definition result_step (self : KernelConnection) (code : string)
    (reply : list json) : M unit :=
  result_content <~ slift (extract_content reply MSG_TYPE_EXECUTE_RESULT) ;;
  match result_content with
  | [] => sret tt
  | [result] => result_block self code result
  | _ => sraise ValueError
  end.

Definition callback (self : KernelConnection) (code : string)
    (reply : list json) : M unit :=
  _ <~ display_step self reply ;;
  result_step self code reply.

(** ** The worker: [AsyncCommunicator]

    The queue is shared between the threads that submit and the one worker
    thread, so the connection is a transition system: a [put] by any
    submitter, or the next step of the worker.  The worker is sequential:
    it takes a task, runs the exchange, then the callback, and catches
    every exception of either with [print(err)].  The log is a ghost
    record of what happened, in order. *)

Section Worker.
Context {W : Type}.

Record task : Type := {
  task_message : json;
  task_callback : list json -> W -> outcome unit * W
}.

Inductive worker_state : Type :=
  | Idle
  | Exchanging (t : task)
  | Calling (t : task) (reply : list json).

Inductive event : Type :=
  | EvPut (t : task)
  | EvExchangeStart (t : task)
  | EvExchangeEnd (t : task) (r : outcome (list json))
  | EvCallback (t : task) (reply : list json) (r : outcome unit)
  | EvPrint (err : exn).

Record system : Type := {
  message_queue : list task;
  worker : worker_state;
  world : W;
  log : list event
}.

Definition start (w : W) : system :=
  {| message_queue := []; worker := Idle; world := w; log := [] |}.

(** [_async_communicate]: [message_queue.put((message, callback))]. *)
Definition _async_communicate (t : task) (s : system) : system :=
  {| message_queue := message_queue s ++ [t];
     worker := worker s;
     world := world s;
     log := log s ++ [EvPut t] |}.

Definition printed (r : outcome unit) : list event :=
  match r with
  | Ok _ => []
  | Raise err => [EvPrint err]
  end.

(** One step of [run].  [None]: the worker is blocked in
    [message_queue.get()] on an empty queue. *)
Definition run_step (kernel : json -> connection) (s : system)
  : option system :=
  match worker s with
  | Idle =>
      match message_queue s with
      | [] => None
      | t :: rest =>
          Some {| message_queue := rest;
                  worker := Exchanging t;
                  world := world s;
                  log := log s ++ [EvExchangeStart t] |}
      end
  | Exchanging t =>
      match _communicate kernel (task_message t) with
      | Ok reply =>
          Some {| message_queue := message_queue s;
                  worker := Calling t reply;
                  world := world s;
                  log := log s ++ [EvExchangeEnd t (Ok reply)] |}
      | Raise err =>
          Some {| message_queue := message_queue s;
                  worker := Idle;
                  world := world s;
                  log := log s ++ [EvExchangeEnd t (Raise err); EvPrint err] |}
      end
  | Calling t reply =>
      let '(r, w) := task_callback t reply (world s) in
      Some {| message_queue := message_queue s;
              worker := Idle;
              world := w;
              log := log s ++ EvCallback t reply r :: printed r |}
  end.

(** [n] steps of the worker with no submission in between; it stops
    early when the worker blocks. *)
Fixpoint run (kernel : json -> connection) (n : nat) (s : system) : system :=
  match n with
  | O => s
  | S n' =>
      match run_step kernel s with
      | Some s' => run kernel n' s'
      | None => s
      end
  end.

Inductive step (kernel : json -> connection) : system -> system -> Prop :=
  | step_put t s : step kernel s (_async_communicate t s)
  | step_worker s s' : run_step kernel s = Some s' -> step kernel s s'.

Inductive reachable (kernel : json -> connection) (w : W)
  : system -> Prop :=
  | reachable_start : reachable kernel w (start w)
  | reachable_step s s' :
      reachable kernel w s -> step kernel s s' -> reachable kernel w s'.

(** Readings of the log. *)
Fixpoint submitted (l : list event) : list task :=
  match l with
  | [] => []
  | EvPut t :: l' => t :: submitted l'
  | _ :: l' => submitted l'
  end.

Fixpoint started (l : list event) : list task :=
  match l with
  | [] => []
  | EvExchangeStart t :: l' => t :: started l'
  | _ :: l' => started l'
  end.

Fixpoint ended (l : list event) : list task :=
  match l with
  | [] => []
  | EvExchangeEnd t _ :: l' => t :: ended l'
  | _ :: l' => ended l'
  end.

Fixpoint fired (l : list event) : list task :=
  match l with
  | [] => []
  | EvCallback t _ _ :: l' => t :: fired l'
  | _ :: l' => fired l'
  end.

(** Exchanges begun and not yet ended. *)
Definition in_flight (l : list event) : Z :=
  Z.of_nat (length (started l)) - Z.of_nat (length (ended l)).

Definition exchange_ok (kernel : json -> connection) (t : task) : bool :=
  match _communicate kernel (task_message t) with
  | Ok _ => true
  | Raise _ => false
  end.
End Worker.

Arguments task : clear implicits.
Arguments worker_state : clear implicits.
Arguments event : clear implicits.
Arguments system : clear implicits.

(** [execute_code]: the task handed to [_async_communicate]. *)
Definition execute_code (self : KernelConnection) (msg_id now code : string)
  : task hstate :=
  {| task_message := execute_request (_kernel_id self) msg_id now code;
     task_callback := callback self code |}.

(** ** The dispatch, as the specification words it

    A second description, used to compare the callback with: the content
    blocks of a given type in arrival order, and the handler invocations
    owed to a content block: for each MIME key of its payload that has a
    registered handler, one invocation on the value of the key. *)

Definition contents_of (reply : list json) (msg_type : string) : list json :=
  omap (fun message =>
          if decide (header_msg_type message = Some msg_type)
          then match subscript message "content" with
               | Ok content => Some content
               | Raise _ => None
               end
          else None) reply.

Definition matched_key {H : Type} (registry : gmap string H)
    (mk : string -> json -> call)
    (fields : list (string * json)) (mime : string) : list call :=
  match registry !! mime, dict_get fields mime with
  | Some _, Some payload => [mk mime payload]
  | _, _ => []
  end.

Definition matched_in {H : Type} (registry : gmap string H)
    (mk : string -> json -> call) (content : json) : list call :=
  match extract_data content with
  | Ok (JObj fields) => flat_map (matched_key registry mk fields) (dict_keys fields)
  | _ => []
  end.

Definition matched_display_calls (self : KernelConnection)
    (reply : list json) : list call :=
  flat_map (matched_in (_handle_display_data self) DisplayCall)
    (contents_of reply MSG_TYPE_DISPLAY_DATA).

Definition matched_result_calls (self : KernelConnection) (code : string)
    (reply : list json) : list call :=
  flat_map (matched_in (_run_commands self)
              (fun mime payload => ResultCall mime code payload))
    (contents_of reply MSG_TYPE_EXECUTE_RESULT).

Definition is_result_call (c : call) : bool :=
  match c with
  | ResultCall _ _ _ => true
  | DisplayCall _ _ => false
  end.

(** An envelope of the data model: a header with a [msg_type], and a
    content block that is a dict whose [data], when present, is a dict. *)
Definition well_formed (message : json) : bool :=
  match header_msg_type message, subscript message "content" with
  | Some _, Ok (JObj fields) =>
      match dict_get fields "data" with
      | None | Some (JObj _) => true
      | Some _ => false
      end
  | _, _ => false
  end.

(** A handler invocation that does not stop the callback: it returns, or
    it raises the [KeyError] the [try] block swallows. *)
Definition benign (r : outcome unit) : Prop :=
  r = Ok tt \/ r = Raise KeyError.

(** ** Reading the record of invocations *)

(** How the handler registered for an invocation ends on a given view. *)
Definition handler_outcome (self : KernelConnection) (c : call) (v : view)
  : option (outcome unit) :=
  match c with
  | DisplayCall mime payload =>
      (fun handler : display_handler => fst (handler payload v))
        <$> _handle_display_data self !! mime
  | ResultCall mime code payload =>
      (fun handler : result_handler => fst (handler code payload v))
        <$> _run_commands self !! mime
  end.

(** The handlers owed to [calls] return or raise [KeyError], whatever the
    view they run on. *)
Definition benign_on (self : KernelConnection) (calls : list call) : Prop :=
  forall c v r, In c calls -> handler_outcome self c v = Some r -> benign r.




(** ** Reading the state of the dispatcher *)

(** The task the worker holds. *)
Definition current {W} (st : worker_state W) : list (task W) :=
  match st with
  | Idle => []
  | Exchanging t => [t]
  | Calling t _ => [t]
  end.

(** [ts] submitted one after the other. *)
Definition submit_all {W} (ts : list (task W)) (s : system W) : system W :=
  fold_left (fun s t => _async_communicate t s) ts s.

(** What holds in every state of the connection: the tasks taken so far
    followed by the queue are the tasks submitted, in order; the worker
    holds the last task taken or none; the callbacks fired are those of
    the tasks finished whose exchange returned, in order; and the number
    of exchanges begun exceeds the number ended by one exactly while the
    worker is in the exchange. *)
Definition dispatcher_invariant {W} (kernel : json -> connection)
    (s : system W) : Prop :=
  submitted (log s) = started (log s) ++ message_queue s /\
  (exists finished,
     started (log s) = finished ++ current (worker s) /\
     fired (log s) = List.filter (exchange_ok kernel) finished) /\
  (match worker s with
   | Calling t reply => _communicate kernel (task_message t) = Ok reply
   | _ => True
   end) /\
  in_flight (log s) = match worker s with Exchanging _ => 1 | _ => 0 end.

(** The view after the handlers owed to [calls] have run on it, one
    after the other: each call applies the handler registered under its
    MIME key to its payload. *)
Definition run_handlers (self : KernelConnection) (calls : list call)
    (v : view) : view :=
  fold_left
    (fun v c =>
       match c with
       | DisplayCall mime payload =>
           match _handle_display_data self !! mime with
           | Some handler => snd (handler payload v)
           | None => v
           end
       | ResultCall mime code payload =>
           match _run_commands self !! mime with
           | Some handler => snd (handler code payload v)
           | None => v
           end
       end) calls v.

(** ** Sample data

    Frames, kernels and handlers used by the worked examples below. *)

Definition frame (header_type top_type : string) (content : json) : json :=
  JObj [("header", JObj [("msg_type", JStr header_type)]);
        ("msg_type", JStr top_type);
        ("content", content)].

(** A kernel that accepts the connection, sends [frames] and closes. *)
Definition kernel_sending (frames : list json) : json -> connection :=
  fun _ => {| conn_open := None;
              conn_send := None;
              conn_frames := map RecvText frames;
              conn_closed := OtherError "WebSocketConnectionClosedException" |}.

(** A kernel that cannot be reached. *)
Definition kernel_refusing : json -> connection :=
  fun _ => {| conn_open := Some (OtherError "ConnectionRefusedError");
              conn_send := None;
              conn_frames := [];
              conn_closed := OtherError "WebSocketConnectionClosedException" |}.

Definition handler_raising (e : exn) : display_handler :=
  fun _ v => (Raise e, v).

Definition handler_writing (text : string) : display_handler :=
  fun _ v => (Ok tt, _write_to_view text v).

(** A connection with two display handlers, the first of which raises. *)
Definition connection_ab (e : exn) : KernelConnection :=
  {| _lang := "python";
     _kernel_id := "k1";
     _handle_display_data :=
       {[ "text/a" := handler_raising e; "text/b" := handler_writing "b" ]};
     _run_commands := {[ "text/plain" := _handle_text 5 ]};
     _max_shown_input_length := 5 |}.

Definition display_frame (fields : list (string * json)) : json :=
  frame "display_data" "display_data" (JObj [("data", JObj fields)]).

Definition result_frame (fields : list (string * json)) : json :=
  frame "execute_result" "execute_result" (JObj [("data", JObj fields)]).

Definition empty_state : hstate := {| st_view := []; st_calls := [] |}.

(** A stream with two display blocks and two execute results. *)
Definition stream_two_results : list json :=
  [display_frame [("text/a", JNum 1); ("text/b", JNum 2)];
   result_frame [("text/plain", JStr "2")];
   display_frame [("text/b", JNum 3); ("application/unknown", JNum 4)];
   result_frame [("text/plain", JStr "3")];
   frame "execute_reply" "execute_reply" (JObj [])].

(** A stream with display blocks and no execute result. *)
Definition stream_no_result : list json :=
  [display_frame [("text/a", JNum 1); ("text/b", JNum 2)];
   display_frame [("text/b", JNum 3)];
   frame "execute_reply" "execute_reply" (JObj [])].

(** A task whose callback counts its invocations in the world. *)
Definition counting_task (n : Z) : task nat :=
  {| task_message := JObj [("content", JObj [("code", JNum n)])];
     task_callback := fun _ count => (Ok tt, S count) |}.

(** A task whose callback raises. *)
Definition raising_task (n : Z) : task nat :=
  {| task_message := JObj [("content", JObj [("code", JNum n)])];
     task_callback := fun _ count => (Raise ValueError, S count) |}.

Definition kernel_replying : json -> connection :=
  kernel_sending [frame "execute_reply" "execute_reply" (JObj [])].

(** ** Further readings of a stream *)

(** What [extract_content] asks of a message when it selects [msg_type]:
    a header whose [msg_type] can be read and, when that type is the one
    selected, a content block. *)
Definition routable (msg_type : string) (message : json) : Prop :=
  exists header t,
    subscript message "header" = Ok header /\
    subscript header "msg_type" = Ok t /\
    (eq_str t msg_type = true ->
     exists content, subscript message "content" = Ok content).

(** A frame that carries the same type in its header and at top level,
    as the frames of a notebook server do. *)
Definition consistent (frame : json) : Prop :=
  header_msg_type frame = top_msg_type frame.

(** ** Further readings of the record of invocations *)

Definition display_entry (self : KernelConnection)
    (entry : call * outcome unit) : Prop :=
  exists mime payload,
    fst entry = DisplayCall mime payload /\
    is_Some (_handle_display_data self !! mime).

Definition result_entry (self : KernelConnection) (code : string)
    (entry : call * outcome unit) : Prop :=
  exists mime payload,
    fst entry = ResultCall mime code payload /\
    is_Some (_run_commands self !! mime).

(** A computation whose only effect is through handler invocations, each
    of which satisfies [P]: it adds entries to the record, and when it
    adds none it leaves the state as it was. *)
Definition adds {A} (P : call * outcome unit -> Prop) (m : M A) : Prop :=
  forall s r s',
    m s = (r, s') ->
    exists entries,
      st_calls s' = st_calls s ++ entries /\
      List.Forall P entries /\
      (entries = [] -> s' = s).

(** A stream whose payloads carry keys no handler is registered for. *)
Definition stream_unknown : list json :=
  [display_frame [("application/unknown", JNum 1)];
   result_frame [("text/html", JStr "<b>2</b>")];
   frame "execute_reply" "execute_reply" (JObj [])].

(** ** Further readings of the log of the dispatcher *)

(** The callbacks of [ts] run one after the other in list order, each on
    the reply of its own exchange; a task whose exchange fails is
    skipped. *)
Definition replay {W} (kernel : json -> connection) (ts : list (task W))
    (w : W) : W :=
  fold_left
    (fun w t =>
       match _communicate kernel (task_message t) with
       | Ok reply => snd (task_callback t reply w)
       | Raise _ => w
       end) ts w.

(** ** The output view, in the editor

    A finer model of the view than the sequence of texts above: the
    window of the editor with its views, as [get_view], [activate_view]
    and [_write_to_view] use them.  The editor is outside the repository;
    its interface is modelled as documented: [views()] lists the views of
    the window in order, [new_file()] adds an unnamed, empty, writable
    view at the end and makes it the active one, the setters change one
    property of one view, and the [append] command adds its characters at
    the end of a view that is not read-only.  A view is known by its
    position; the active window is taken to stay the same. *)

Module Sublime.

Record buffer : Type := {
  name : string;
  text : string;
  read_only : bool;
  scratch : bool;
  word_wrap : option string
}.

Record window : Type := {
  views : list buffer;
  active : option nat
}.

Definition blank : buffer :=
  {| name := EmptyString; text := EmptyString; read_only := false;
     scratch := false; word_wrap := None |}.

Definition new_file (w : window) : nat * window :=
  (length (views w),
   {| views := views w ++ [blank]; active := Some (length (views w)) |}).

Definition on_view (f : buffer -> buffer) (i : nat) (w : window) : window :=
  {| views := alter f i (views w); active := active w |}.

Definition focus_view (i : nat) (w : window) : window :=
  {| views := views w; active := Some i |}.

Definition set_name (n : string) (b : buffer) : buffer :=
  {| name := n; text := text b; read_only := read_only b;
     scratch := scratch b; word_wrap := word_wrap b |}.

Definition set_scratch (v : bool) (b : buffer) : buffer :=
  {| name := name b; text := text b; read_only := read_only b;
     scratch := v; word_wrap := word_wrap b |}.

Definition set_word_wrap (v : string) (b : buffer) : buffer :=
  {| name := name b; text := text b; read_only := read_only b;
     scratch := scratch b; word_wrap := Some v |}.

Definition set_read_only (v : bool) (b : buffer) : buffer :=
  {| name := name b; text := text b; read_only := v;
     scratch := scratch b; word_wrap := word_wrap b |}.

Definition append (characters : string) (b : buffer) : buffer :=
  if read_only b then b
  else {| name := name b; text := text b +:+ characters;
          read_only := read_only b; scratch := scratch b;
          word_wrap := word_wrap b |}.

(** The position of the first view called [n]. *)
Fixpoint find_view (n : string) (l : list buffer) : option nat :=
  match l with
  | [] => None
  | b :: rest =>
      if String.eqb (name b) n then Some O else S <$> find_view n rest
  end.

Definition lang (self : KernelConnection) : string := _lang self.

Definition kernel_id (self : KernelConnection) : string := _kernel_id self.

Definition view_name (self : KernelConnection) : string :=
  "*Hermes Output* [" +:+ lang self +:+ "] " +:+ kernel_id self.

(** [get_view]: the first view of the window with the name of the
    connection, or a new file given that name. *)
Definition get_view (self : KernelConnection) (w : window) : nat * window :=
  match find_view (view_name self) (views w) with
  | Some i => (i, w)
  | None =>
      let '(i, w1) := new_file w in
      (i, on_view (set_name (view_name self)) i w1)
  end.

Definition activate_view (self : KernelConnection) (w : window) : window :=
  let '(i, w1) := get_view self w in
  on_view (set_word_wrap "false") i
    (on_view (set_scratch true) i (focus_view i w1)).

Definition _write_to_view (self : KernelConnection) (text : string)
    (w : window) : window :=
  let w1 := activate_view self w in
  let '(i, w2) := get_view self w1 in
  on_view (set_read_only true) i
    (on_view (append text) i (on_view (set_read_only false) i w2)).

(** The loop of [_handle_text] and the handler itself, on the window. *)
Fixpoint write_lines (self : KernelConnection) (lines : list json)
    (w : window) : outcome unit * window :=
  match lines with
  | [] => (Ok tt, w)
  | line :: rest =>
      match str_add line NL with
      | Ok characters => write_lines self rest (_write_to_view self characters w)
      | Raise e => (Raise e, w)
      end
  end.

Definition _handle_text (self : KernelConnection) (code : string)
    (result : json) (w : window) : outcome unit * window :=
  let code :=
    if Z.of_nat (String.length code) >? _max_shown_input_length self
    then slice_to code (_max_shown_input_length self) +:+ "..."
    else code in
  write_lines self
    [JStr "input:"; JStr code; JStr "output:"; result; JStr "---"; JStr NL] w.

(** What the output view of the connection shows: the text of the first
    view with its name, nothing when there is none. *)
Definition shown (self : KernelConnection) (w : window) : string :=
  match find_view (view_name self) (views w) with
  | Some i =>
      match views w !! i with
      | Some b => text b
      | None => EmptyString
      end
  | None => EmptyString
  end.

End Sublime.

(** The texts of the coarse view, put end to end. *)
Definition flatten (v : view) : string :=
  fold_right String.append EmptyString v.

(** A window with a read-only view of another name. *)
Definition window_other : Sublime.window :=
  {| Sublime.views :=
       [{| Sublime.name := "notes.txt"; Sublime.text := "abc";
           Sublime.read_only := true; Sublime.scratch := false;
           Sublime.word_wrap := None |}];
     Sublime.active := Some O |}.

(** A platform on which the figure can be saved, one where
    [TemporaryFile] does not take [delete], and one where the bytes reach
    the disk only at the closing of the file, which fails. *)
Definition platform_saving : png_platform :=
  {| b64decode := fun _ => Ok "PNG";
     temporary_file := Ok "fig.png";
     file_write := fun _ => None;
     file_close := None |}.

Definition platform_posix : png_platform :=
  {| b64decode := fun _ => Ok "PNG";
     temporary_file := Raise TypeError;
     file_write := fun _ => None;
     file_close := None |}.

Definition platform_disk_full : png_platform :=
  {| b64decode := fun _ => Ok "PNG";
     temporary_file := Ok "fig.png";
     file_write := fun _ => None;
     file_close := Some (OtherError "OSError") |}.

(** * Properties *)

(** ** [extract_data] *)

Lemma extract_data_dict fields :
  extract_data (JObj fields) =
  Ok (default (JStr EmptyString) (dict_get fields "data")).
Proof.
  unfold extract_data, subscript.
  destruct (dict_get fields "data"); reflexivity.
Qed.

(** C7 (as stated, refuted).  On a content block without a [data] field
    [extract_data] does not return an empty mapping: it returns the empty
    string. *)
Lemma extract_data_absent_not_mapping :
  extract_data (JObj [("metadata", JObj [])]) <> Ok (JObj []) /\
  extract_data (JObj [("metadata", JObj [])]) = Ok (JStr EmptyString).
Proof. split; [discriminate | reflexivity]. Qed.

(** C7 (amended).  For every content block (a dict), [extract_data]
    returns the [data] field when it is present; when it is absent it
    returns the empty string, over which a [for] loop visits nothing; in
    neither case does it raise. *)
Theorem extract_data_payload (fields : list (string * json)) :
  (forall data, dict_get fields "data" = Some data ->
     extract_data (JObj fields) = Ok data) /\
  (dict_get fields "data" = None ->
     extract_data (JObj fields) = Ok (JStr EmptyString) /\
     py_iter (JStr EmptyString) = Ok []) /\
  (forall e, extract_data (JObj fields) <> Raise e).
Proof.
  rewrite extract_data_dict. split; [|split].
  - intros data ->. reflexivity.
  - intros ->. split; reflexivity.
  - intros e. discriminate.
Qed.

Lemma extract_data_payload_witness :
  extract_data (JObj [("data", JObj [("text/plain", JStr "4")])]) =
    Ok (JObj [("text/plain", JStr "4")]) /\
  extract_data (JObj [("metadata", JObj [])]) = Ok (JStr EmptyString).
Proof.
  split.
  - apply (proj1 (extract_data_payload
                    [("data", JObj [("text/plain", JStr "4")])])).
    reflexivity.
  - apply (proj1 (proj2 (extract_data_payload [("metadata", JObj [])]))).
    reflexivity.
Defined.

(** ** [_communicate] *)

Lemma recv_loop_running frame rest closed replies :
  not_reply (top_msg_type frame) = true ->
  recv_loop (RecvText frame :: rest) closed replies =
  recv_loop rest closed (replies ++ [frame]).
Proof.
  unfold not_reply, top_msg_type. cbn [recv_loop].
  destruct (subscript frame "msg_type") as [[]|]; try discriminate.
  cbn. intros ->%negb_true_iff. reflexivity.
Qed.

Lemma recv_loop_reply frame rest closed replies :
  is_reply (top_msg_type frame) = true ->
  recv_loop (RecvText frame :: rest) closed replies = Ok (replies ++ [frame]).
Proof.
  unfold is_reply, top_msg_type. cbn [recv_loop].
  destruct (subscript frame "msg_type") as [[]|]; try discriminate.
  cbn. intros ->. reflexivity.
Qed.

Lemma recv_loop_prefix pre rest closed replies :
  Forall (fun frame => not_reply (top_msg_type frame) = true) pre ->
  recv_loop (map RecvText pre ++ rest) closed replies =
  recv_loop rest closed (replies ++ pre).
Proof.
  intros Hpre. revert replies.
  induction Hpre as [|frame pre Hframe _ IH]; intros replies.
  - cbn. by rewrite app_nil_r.
  - cbn [map app]. rewrite recv_loop_running by assumption.
    rewrite IH, <- app_assoc. reflexivity.
Qed.

(** C2 (as stated, refuted).  The loop does not look at
    [header.msg_type].  A frame whose header says [execute_reply] while
    its top-level [msg_type] says [status] does not end the exchange: the
    next frame is appended as well.  And an envelope that carries its
    [msg_type] in the header only ends the exchange with a [KeyError]. *)
Lemma communicate_header_reply_counterexample :
  let first := frame "execute_reply" "status" (JObj []) in
  let second := frame "execute_reply" "execute_reply" (JObj []) in
  let bare := JObj [("header", JObj [("msg_type", JStr "execute_reply")]);
                    ("content", JObj [])] in
  is_reply (header_msg_type first) = true /\
  _communicate (kernel_sending [first; second]) JNull = Ok [first; second] /\
  _communicate (kernel_sending [first; second]) JNull <> Ok [first] /\
  is_reply (header_msg_type bare) = true /\
  _communicate (kernel_sending [bare]) JNull = Raise KeyError.
Proof. vm_compute. repeat split. discriminate. Qed.

(** C2 (amended).  [_communicate] appends each received frame in arrival
    order and stops after the first frame whose top-level [msg_type]
    field ends with [_reply]; it returns the frames up to and including
    that one, whatever the channel holds after it. *)
Theorem communicate_stops_at_first_reply
    (kernel : json -> connection) (message : json)
    (pre : list json) (last : json) (rest : list recv_event) :
  conn_open (kernel message) = None ->
  conn_send (kernel message) = None ->
  conn_frames (kernel message) = map RecvText pre ++ RecvText last :: rest ->
  Forall (fun f => not_reply (top_msg_type f) = true) pre ->
  is_reply (top_msg_type last) = true ->
  _communicate kernel message = Ok (pre ++ [last]).
Proof.
  intros Hopen Hsend Hframes Hpre Hlast.
  unfold _communicate. rewrite Hopen, Hsend, Hframes.
  rewrite recv_loop_prefix by assumption.
  rewrite recv_loop_reply by assumption. reflexivity.
Qed.

Lemma communicate_stops_at_first_reply_witness :
  _communicate
    (kernel_sending [frame "status" "status" (JObj []);
                     frame "execute_result" "execute_result" (JObj []);
                     frame "execute_reply" "execute_reply" (JObj []);
                     frame "status" "status" (JObj [])])
    JNull =
  Ok [frame "status" "status" (JObj []);
      frame "execute_result" "execute_result" (JObj []);
      frame "execute_reply" "execute_reply" (JObj [])].
Proof.
  apply (communicate_stops_at_first_reply _ JNull
           [frame "status" "status" (JObj []);
            frame "execute_result" "execute_result" (JObj [])]
           (frame "execute_reply" "execute_reply" (JObj []))
           [RecvText (frame "status" "status" (JObj []))]).
  - reflexivity.
  - reflexivity.
  - reflexivity.
  - repeat constructor.
  - reflexivity.
Defined.

(** C4.  When the channel closes before any frame with a [msg_type]
    ending in [_reply] has arrived, [_communicate] fails: it returns no
    reply list but raises.  When moreover every frame that did arrive
    decodes and carries a [str] [msg_type], the exception is the one the
    receive raises on the closed channel (the incomplete-reply failure of
    the specification). *)
Theorem communicate_incomplete_reply
    (kernel : json -> connection) (message : json) :
  Forall (fun ev => match ev with
                    | RecvText f => is_reply (top_msg_type f) = false
                    | RecvGarbage => True
                    end) (conn_frames (kernel message)) ->
  (exists e, _communicate kernel message = Raise e) /\
  (forall frames,
     conn_open (kernel message) = None ->
     conn_send (kernel message) = None ->
     conn_frames (kernel message) = map RecvText frames ->
     Forall (fun f => is_Some (top_msg_type f)) frames ->
     _communicate kernel message = Raise (conn_closed (kernel message))).
Proof.
  intros Hno. split.
  - unfold _communicate.
    destruct (conn_open (kernel message)); [eauto|].
    destruct (conn_send (kernel message)); [eauto|].
    generalize (@nil json) as replies.
    induction Hno as [|ev evs Hev _ IH]; intros replies; [cbn; eauto|].
    destruct ev as [f|]; [|cbn; eauto].
    cbn [recv_loop]. unfold top_msg_type, is_reply in Hev.
    destruct (subscript f "msg_type") as [t|e]; [|cbn; eauto].
    destruct t; cbn; eauto.
    rewrite Hev. apply IH.
  - intros frames Hopen Hsend Hframes Hwf.
    unfold _communicate. rewrite Hopen, Hsend, Hframes.
    rewrite <- (app_nil_r (map RecvText frames)).
    rewrite recv_loop_prefix; [reflexivity|].
    rewrite Hframes in Hno. clear Hframes.
    induction Hwf as [|f fs [t Ht] _ IH]; [constructor|].
    cbn in Hno. apply Forall_cons in Hno as [Hf Hfs].
    constructor; [|by apply IH].
    rewrite Ht in Hf |- *. cbn in *. by rewrite Hf.
Qed.

Lemma communicate_incomplete_reply_witness :
  _communicate
    (kernel_sending [frame "status" "status" (JObj []);
                     frame "display_data" "display_data" (JObj [])])
    JNull = Raise (OtherError "WebSocketConnectionClosedException").
Proof.
  refine (proj2 (communicate_incomplete_reply
            (kernel_sending [frame "status" "status" (JObj []);
                             frame "display_data" "display_data" (JObj [])])
            JNull _) _ eq_refl eq_refl eq_refl _).
  - repeat constructor.
  - repeat constructor; eexists; reflexivity.
Defined.

(** ** [_handle_text] *)

Lemma substring_0_split (n : nat) (s : string) :
  (n <= String.length s)%nat ->
  exists tail,
    s = substring 0 n s +:+ tail /\ String.length (substring 0 n s) = n.
Proof.
  revert s. induction n as [|n IH]; intros s Hn.
  - exists s. destruct s; split; reflexivity.
  - destruct s as [|c s]; cbn in Hn; [lia|].
    destruct (IH s) as (tail & Hs & Hlen); [lia|].
    exists tail. split.
    + change (String c s = String c (substring 0 n s +:+ tail)).
      by rewrite <- Hs.
    + change (S (String.length (substring 0 n s)) = S n).
      by rewrite Hlen.
Qed.

Lemma write_lines_strs (lines : list string) (v : view) :
  write_lines (map JStr lines) v =
  (Ok tt, v ++ map (fun line => line +:+ NL) lines).
Proof.
  revert v. induction lines as [|line lines IH]; intros v; cbn.
  - by rewrite app_nil_r.
  - rewrite IH. unfold _write_to_view. by rewrite <- app_assoc.
Qed.

(** C9.  Let the configured maximum [L] be a length (not negative).  When
    the code is longer than [L], the input echo written to the view is
    the first [L] characters of the code followed by three dots; when its
    length is [L] (or less), the echo is the code unmodified. *)
Theorem handle_text_input_echo
    (L : Z) (code result : string) (v : view) :
  0 <= L ->
  (Z.of_nat (String.length code) > L ->
   exists head tail,
     code = head +:+ tail /\
     Z.of_nat (String.length head) = L /\
     _handle_text L code (JStr result) v =
     (Ok tt,
      v ++ ["input:" +:+ NL; (head +:+ "...") +:+ NL; "output:" +:+ NL;
            result +:+ NL; "---" +:+ NL; NL +:+ NL])) /\
  (Z.of_nat (String.length code) <= L ->
   _handle_text L code (JStr result) v =
   (Ok tt,
    v ++ ["input:" +:+ NL; code +:+ NL; "output:" +:+ NL;
          result +:+ NL; "---" +:+ NL; NL +:+ NL])).
Proof.
  intros HL. unfold _handle_text. split; intros Hlen.
  - destruct (substring_0_split (Z.to_nat L) code) as (tail & Hcode & Hhead);
      [lia|].
    exists (substring 0 (Z.to_nat L) code), tail.
    split; [exact Hcode|]. split; [lia|].
    replace (Z.of_nat (String.length code) >? L) with true
      by (symmetry; apply Z.gtb_lt; lia).
    unfold slice_to.
    replace (0 <=? L) with true by (symmetry; apply Z.leb_le; lia).
    apply (write_lines_strs
             ["input:"; substring 0 (Z.to_nat L) code +:+ "..."; "output:";
              result; "---"; NL]).
  - replace (Z.of_nat (String.length code) >? L) with false
      by (symmetry; rewrite Z.gtb_ltb; apply Z.ltb_ge; lia).
    apply (write_lines_strs ["input:"; code; "output:"; result; "---"; NL]).
Qed.

Lemma handle_text_input_echo_witness :
  (exists head tail,
     "abcdef" = head +:+ tail /\
     Z.of_nat (String.length head) = 5 /\
     _handle_text 5 "abcdef" (JStr "42") [] =
     (Ok tt,
      [] ++ ["input:" +:+ NL; (head +:+ "...") +:+ NL; "output:" +:+ NL;
             "42" +:+ NL; "---" +:+ NL; NL +:+ NL])) /\
  _handle_text 5 "abcde" (JStr "42") [] =
  (Ok tt,
   [] ++ ["input:" +:+ NL; "abcde" +:+ NL; "output:" +:+ NL;
          "42" +:+ NL; "---" +:+ NL; NL +:+ NL]).
Proof.
  split.
  - apply (proj1 (handle_text_input_echo 5 "abcdef" "42" [] ltac:(lia))).
    cbn. lia.
  - apply (proj2 (handle_text_input_echo 5 "abcde" "42" [] ltac:(lia))).
    cbn. lia.
Defined.

(** ** The callback of [execute_code] *)

Lemma eq_str_header message header t msg_type :
  subscript message "header" = Ok header ->
  subscript header "msg_type" = Ok t ->
  eq_str t msg_type = true <-> header_msg_type message = Some msg_type.
Proof.
  intros Hh Ht. unfold header_msg_type. rewrite Hh, Ht.
  destruct t; cbn; try (split; discriminate).
  destruct (String.eqb_spec s msg_type); split; congruence.
Qed.

Lemma contents_of_cons message reply msg_type :
  contents_of (message :: reply) msg_type =
  (if decide (header_msg_type message = Some msg_type)
   then match subscript message "content" with
        | Ok content => [content]
        | Raise _ => []
        end
   else []) ++ contents_of reply msg_type.
Proof.
  unfold contents_of. cbn [omap list_omap].
  case_decide; [|reflexivity].
  destruct (subscript message "content"); reflexivity.
Qed.

(** [extract_content], when it returns, returns the content blocks of the
    given type in arrival order. *)
Lemma extract_content_contents reply msg_type contents :
  extract_content reply msg_type = Ok contents ->
  contents = contents_of reply msg_type.
Proof.
  revert contents. induction reply as [|message reply IH]; intros contents H.
  - cbn in H. by inversion H.
  - cbn [extract_content] in H. rewrite contents_of_cons.
    destruct (subscript message "header") as [header|] eqn:Hh;
      cbn [rbind] in H; [|discriminate H].
    destruct (subscript header "msg_type") as [t|] eqn:Ht;
      cbn [rbind] in H; [|discriminate H].
    pose proof (eq_str_header message header t msg_type Hh Ht) as Heq.
    destruct (eq_str t msg_type).
    + rewrite decide_True by (by apply Heq).
      destruct (subscript message "content") as [content|];
        cbn [rbind] in H; [|discriminate H].
      destruct (extract_content reply msg_type) as [rest|];
        cbn [rbind] in H; [|discriminate H].
      inversion H; subst. cbn. f_equal. by apply IH.
    + rewrite decide_False; [by apply IH|].
      intros Hty. apply Heq in Hty. discriminate Hty.
Qed.

Lemma well_formed_inv message :
  well_formed message = true ->
  exists header s fields,
    subscript message "header" = Ok header /\
    subscript header "msg_type" = Ok (JStr s) /\
    header_msg_type message = Some s /\
    subscript message "content" = Ok (JObj fields) /\
    (dict_get fields "data" = None \/
     exists payload, dict_get fields "data" = Some (JObj payload)).
Proof.
  unfold well_formed, header_msg_type.
  destruct (subscript message "header") as [header|] eqn:Hh; [|discriminate].
  destruct (subscript header "msg_type") as [[]|] eqn:Ht; try discriminate.
  destruct (subscript message "content") as [[]|] eqn:Hc; try discriminate.
  intros Hdata. exists header, s, fields.
  split; [reflexivity|]. split; [exact Ht|]. do 2 (split; [reflexivity|]).
  destruct (dict_get fields "data") as [[]|]; try discriminate Hdata; eauto.
Qed.

Lemma extract_content_well_formed reply msg_type :
  Forall (fun message => well_formed message = true) reply ->
  extract_content reply msg_type = Ok (contents_of reply msg_type).
Proof.
  induction 1 as [|message reply Hm _ IH]; [reflexivity|].
  apply well_formed_inv in Hm
    as (header & s & fields & Hh & Ht & Hty & Hc & _).
  cbn [extract_content]. rewrite contents_of_cons, Hty, Hc, Hh.
  cbn [rbind]. rewrite Ht. cbn [rbind eq_str]. rewrite IH.
  destruct (String.eqb_spec s msg_type) as [->|Hne].
  - rewrite decide_True by reflexivity. reflexivity.
  - rewrite decide_False by congruence. reflexivity.
Qed.

Lemma contents_of_well_formed reply msg_type :
  Forall (fun message => well_formed message = true) reply ->
  Forall (fun content =>
            exists fields, content = JObj fields /\
              (dict_get fields "data" = None \/
               exists payload, dict_get fields "data" = Some (JObj payload)))
    (contents_of reply msg_type).
Proof.
  induction 1 as [|message reply Hm _ IH]; [constructor|].
  apply well_formed_inv in Hm
    as (header & s & fields & Hh & Ht & Hty & Hc & Hdata).
  rewrite contents_of_cons, Hc.
  case_decide; [|exact IH].
  constructor; [|exact IH]. eauto.
Qed.

Lemma extract_content_routable reply msg_type :
  List.Forall (routable msg_type) reply ->
  extract_content reply msg_type = Ok (contents_of reply msg_type).
Proof.
  induction 1 as [|message reply (header & t & Hh & Ht & Hc) _ IH];
    [reflexivity|].
  cbn [extract_content]. rewrite contents_of_cons, Hh. cbn [rbind].
  rewrite Ht. cbn [rbind].
  pose proof (eq_str_header message header t msg_type Hh Ht) as Heq.
  destruct (eq_str t msg_type).
  - destruct Hc as [content Hc]; [reflexivity|].
    rewrite decide_True by (by apply Heq).
    rewrite Hc, IH. reflexivity.
  - rewrite decide_False; [exact IH|].
    intros Hty. apply Heq in Hty. discriminate Hty.
Qed.


(** ** [get_complete] *)

(** C5.  Let the kernel answer a complete request with frames the first
    of which to carry a [_reply] type closes the stream, every message
    of the stream being an envelope (a header with a [msg_type], and a
    content block where the type is [complete_reply]).  When the stream
    holds exactly one [complete_reply] content block, [get_complete]
    returns the [matches] field of that block as it is; when it holds
    none or more than one, the call fails with the [ValueError] of the
    unpacking (the unexpected-reply-count failure of the
    specification).  The blocks of the stream are counted on the
    messages themselves, by their header type. *)
Theorem get_complete_matches
    (kernel : json -> connection) (kernel_id msg_id now code : string)
    (cursor_pos : Z) (pre : list json) (last : json)
    (rest : list recv_event) :
  let request := complete_request kernel_id msg_id now code cursor_pos in
  conn_open (kernel request) = None ->
  conn_send (kernel request) = None ->
  conn_frames (kernel request) = map RecvText pre ++ RecvText last :: rest ->
  List.Forall (fun f => not_reply (top_msg_type f) = true) pre ->
  is_reply (top_msg_type last) = true ->
  List.Forall (routable MSG_TYPE_COMPLETE_REPLY) (pre ++ [last]) ->
  (forall content matches,
     contents_of (pre ++ [last]) MSG_TYPE_COMPLETE_REPLY = [content] ->
     subscript content "matches" = Ok matches ->
     get_complete kernel kernel_id msg_id now code cursor_pos = Ok matches) /\
  (length (contents_of (pre ++ [last]) MSG_TYPE_COMPLETE_REPLY) <> 1%nat ->
   get_complete kernel kernel_id msg_id now code cursor_pos
     = Raise ValueError).
Proof.
  intros request Hopen Hsend Hframes Hpre Hlast Hroutable.
  assert (Hrun : get_complete kernel kernel_id msg_id now code cursor_pos =
                 match contents_of (pre ++ [last]) MSG_TYPE_COMPLETE_REPLY with
                 | [content] => subscript content "matches"
                 | _ => Raise ValueError
                 end).
  { unfold get_complete, _communicate. fold request.
    rewrite Hopen, Hsend, Hframes.
    rewrite recv_loop_prefix by assumption.
    rewrite recv_loop_reply by assumption. cbn [rbind app].
    by rewrite extract_content_routable. }
  rewrite Hrun. split.
  - intros content matches -> Hmatches. exact Hmatches.
  - intros Hlen.
    destruct (contents_of (pre ++ [last]) MSG_TYPE_COMPLETE_REPLY)
      as [|c [|c' cs]]; [reflexivity| |reflexivity].
    by destruct Hlen.
Qed.

Lemma get_complete_matches_witness :
  get_complete
    (kernel_sending
       [frame "status" "status" (JObj []);
        frame "complete_reply" "complete_reply"
          (JObj [("matches", JArr [JStr "foo"; JStr "foobar"])])])
    "k1" "m1" "2017-01-01T00:00:00" "fo" 2
  = Ok (JArr [JStr "foo"; JStr "foobar"]) /\
  get_complete
    (kernel_sending [frame "execute_reply" "execute_reply" (JObj [])])
    "k1" "m1" "2017-01-01T00:00:00" "fo" 2
  = Raise ValueError /\
  get_complete
    (kernel_sending
       [frame "complete_reply" "stream" (JObj [("matches", JArr [JStr "a"])]);
        frame "complete_reply" "complete_reply"
          (JObj [("matches", JArr [JStr "b"])])])
    "k1" "m1" "2017-01-01T00:00:00" "fo" 2
  = Raise ValueError.
Proof.
  split; [|split].
  - apply (proj1 (get_complete_matches
                    (kernel_sending
                       [frame "status" "status" (JObj []);
                        frame "complete_reply" "complete_reply"
                          (JObj [("matches", JArr [JStr "foo"; JStr "foobar"])])])
                    "k1" "m1" "2017-01-01T00:00:00" "fo" 2
                    [frame "status" "status" (JObj [])]
                    (frame "complete_reply" "complete_reply"
                       (JObj [("matches", JArr [JStr "foo"; JStr "foobar"])]))
                    [] eq_refl eq_refl eq_refl
                    ltac:(repeat constructor) eq_refl
                    ltac:(repeat constructor;
                          (eexists _, _; split; [reflexivity|];
                           split; [reflexivity|];
                           intros _; eexists; reflexivity)))
             (JObj [("matches", JArr [JStr "foo"; JStr "foobar"])]));
      reflexivity.
  - apply (proj2 (get_complete_matches
                    (kernel_sending
                       [frame "execute_reply" "execute_reply" (JObj [])])
                    "k1" "m1" "2017-01-01T00:00:00" "fo" 2
                    [] (frame "execute_reply" "execute_reply" (JObj []))
                    [] eq_refl eq_refl eq_refl
                    ltac:(constructor) eq_refl
                    ltac:(repeat constructor;
                          (eexists _, _; split; [reflexivity|];
                           split; [reflexivity|];
                           intros _; eexists; reflexivity)))).
    vm_compute. discriminate.
  - apply (proj2 (get_complete_matches
                    (kernel_sending
                       [frame "complete_reply" "stream"
                          (JObj [("matches", JArr [JStr "a"])]);
                        frame "complete_reply" "complete_reply"
                          (JObj [("matches", JArr [JStr "b"])])])
                    "k1" "m1" "2017-01-01T00:00:00" "fo" 2
                    [frame "complete_reply" "stream"
                       (JObj [("matches", JArr [JStr "a"])])]
                    (frame "complete_reply" "complete_reply"
                       (JObj [("matches", JArr [JStr "b"])]))
                    [] eq_refl eq_refl eq_refl
                    ltac:(repeat constructor) eq_refl
                    ltac:(repeat constructor;
                          (eexists _, _; split; [reflexivity|];
                           split; [reflexivity|];
                           intros _; eexists; reflexivity)))).
    vm_compute. discriminate.
Defined.

(** What a loop adds to the record of invocations, when it completes. *)
Lemma for_each_invoked {A} (body : A -> M unit) (g : A -> list call) xs :
  (forall x s s', body x s = (Ok tt, s') -> invoked s' = invoked s ++ g x) ->
  forall s s',
    for_each xs body s = (Ok tt, s') ->
    invoked s' = invoked s ++ flat_map g xs.
Proof.
  intros Hbody. induction xs as [|x xs IH]; intros s s' H.
  - cbn in H. inversion H; subst. cbn. by rewrite app_nil_r.
  - cbn [for_each] in H. unfold sbind in H.
    destruct (body x s) as [[[]|e] s1] eqn:Hx; [|discriminate H].
    apply Hbody in Hx. apply IH in H.
    cbn [flat_map]. by rewrite H, Hx, <- app_assoc.
Qed.

Lemma flat_map_JStr (g : string -> list call) keys :
  flat_map (fun k => match k with JStr mime => g mime | _ => [] end)
    (map JStr keys) = flat_map g keys.
Proof. induction keys as [|k keys IH]; cbn; [done|by rewrite IH]. Qed.

Lemma flat_map_nil {A} (xs : list A) :
  flat_map (fun _ => @nil call) xs = [].
Proof. induction xs; cbn; done. Qed.

Lemma invoked_snoc s v c r :
  invoked {| st_view := v; st_calls := st_calls s ++ [(c, r)] |} =
  invoked s ++ [c].
Proof. unfold invoked. cbn. by rewrite map_app. Qed.

Lemma display_one_invoked self display_data mime_type s s' :
  display_one self display_data mime_type s = (Ok tt, s') ->
  invoked s' = invoked s ++
    match display_data, mime_type with
    | JObj fields, JStr mime =>
        matched_key (_handle_display_data self) DisplayCall fields mime
    | _, _ => []
    end.
Proof.
  unfold display_one, except_KeyError_pass, matched_key.
  destruct mime_type; cbn;
    try (intros H; inversion H; subst;
         destruct display_data; by rewrite app_nil_r).
  destruct (_handle_display_data self !! s0) as [handler|]; cbn.
  - unfold sbind, slift, call_display.
    destruct display_data; cbn;
      try (intros H; inversion H; subst; by rewrite app_nil_r).
    destruct (dict_get fields s0) as [payload|]; cbn.
    + destruct (handler payload (st_view s)) as [[[]|e] v];
        [|destruct e]; intros H; inversion H; subst;
        apply invoked_snoc.
    + intros H; inversion H; subst. by rewrite app_nil_r.
  - intros H; inversion H; subst. destruct display_data; by rewrite app_nil_r.
Qed.

Lemma display_block_invoked self content s s' :
  display_block self content s = (Ok tt, s') ->
  invoked s' =
  invoked s ++ matched_in (_handle_display_data self) DisplayCall content.
Proof.
  unfold display_block, matched_in, sbind, slift.
  destruct (extract_data content) as [display_data|]; [|discriminate].
  destruct (py_iter display_data) as [mime_types|] eqn:Hiter; [|discriminate].
  intros H.
  eapply for_each_invoked in H;
    [|intros x t t' Hx; exact (display_one_invoked _ _ _ _ _ Hx)].
  rewrite H. f_equal.
  destruct display_data; try apply flat_map_nil.
  cbn in Hiter. inversion Hiter; subst. apply flat_map_JStr.
Qed.

(** When the display step completes, the handlers it has invoked are the
    ones owed to the [display_data] blocks of the stream, in order. *)
Lemma display_step_invoked self reply s s' :
  display_step self reply s = (Ok tt, s') ->
  invoked s' = invoked s ++ matched_display_calls self reply.
Proof.
  unfold display_step, matched_display_calls, sbind, slift.
  destruct (extract_content reply MSG_TYPE_DISPLAY_DATA) as [contents|] eqn:Hc;
    [|discriminate].
  apply extract_content_contents in Hc as <-.
  apply for_each_invoked. intros x t t'. apply display_block_invoked.
Qed.

Lemma result_one_invoked self code data mime_type s s' :
  result_one self code data mime_type s = (Ok tt, s') ->
  invoked s' = invoked s ++
    match data, mime_type with
    | JObj fields, JStr mime =>
        matched_key (_run_commands self)
          (fun mime payload => ResultCall mime code payload) fields mime
    | _, _ => []
    end.
Proof.
  unfold result_one, except_KeyError_pass, matched_key.
  destruct mime_type; cbn;
    try (intros H; inversion H; subst;
         destruct data; by rewrite app_nil_r).
  destruct (_run_commands self !! s0) as [handler|]; cbn.
  - unfold sbind, slift, call_result.
    destruct data; cbn;
      try (intros H; inversion H; subst; by rewrite app_nil_r).
    destruct (dict_get fields s0) as [payload|]; cbn.
    + destruct (handler code payload (st_view s)) as [[[]|e] v];
        [|destruct e]; intros H; inversion H; subst;
        apply invoked_snoc.
    + intros H; inversion H; subst. by rewrite app_nil_r.
  - intros H; inversion H; subst. destruct data; by rewrite app_nil_r.
Qed.

Lemma result_block_invoked self code content s s' :
  result_block self code content s = (Ok tt, s') ->
  invoked s' =
  invoked s ++
  matched_in (_run_commands self)
    (fun mime payload => ResultCall mime code payload) content.
Proof.
  unfold result_block, matched_in, sbind, slift.
  destruct (extract_data content) as [data|]; [|discriminate].
  destruct (py_iter data) as [mime_types|] eqn:Hiter; [|discriminate].
  intros H.
  eapply for_each_invoked in H;
    [|intros x t t' Hx; exact (result_one_invoked _ _ _ _ _ _ Hx)].
  rewrite H. f_equal.
  destruct data; try apply flat_map_nil.
  cbn in Hiter. inversion Hiter; subst.
  apply (flat_map_JStr
           (matched_key (_run_commands self)
              (fun mime payload => ResultCall mime code payload) fields)).
Qed.

Lemma result_step_invoked self code reply s s' :
  result_step self code reply s = (Ok tt, s') ->
  invoked s' = invoked s ++ matched_result_calls self code reply.
Proof.
  unfold result_step, matched_result_calls, sbind, slift.
  destruct (extract_content reply MSG_TYPE_EXECUTE_RESULT) as [contents|] eqn:Hc;
    [|discriminate].
  apply extract_content_contents in Hc as <-.
  destruct contents as [|result [|]]; [| |discriminate].
  - intros H. inversion H; subst. cbn. by rewrite app_nil_r.
  - intros H. apply result_block_invoked in H. cbn. by rewrite app_nil_r.
Qed.

Lemma matched_display_calls_display self reply :
  Forall (fun c => is_result_call c = false) (matched_display_calls self reply).
Proof.
  unfold matched_display_calls.
  apply List.Forall_forall. intros c Hc.
  apply in_flat_map in Hc as (content & _ & Hc).
  unfold matched_in in Hc.
  destruct (extract_data content) as [[]|]; try contradiction.
  apply in_flat_map in Hc as (mime & _ & Hc).
  unfold matched_key in Hc.
  destruct (_handle_display_data self !! mime); [|contradiction].
  destruct (dict_get fields mime); [|contradiction].
  destruct Hc as [<-|[]]. reflexivity.
Qed.

(** *** A fault ends the callback *)













(** *** A swallowed [KeyError] lets the callback go on *)

Lemma for_each_ok {A} (body : A -> M unit) xs :
  (forall x s, In x xs -> exists s', body x s = (Ok tt, s')) ->
  forall s, exists s', for_each xs body s = (Ok tt, s').
Proof.
  induction xs as [|x xs IH]; intros Hbody s; cbn [for_each].
  - eexists; reflexivity.
  - destruct (Hbody x s) as [s1 Hx]; [by left|].
    unfold sbind. rewrite Hx. apply IH.
    intros y t Hy. apply Hbody. by right.
Qed.

Lemma display_one_ok self fields mime s :
  (forall payload v r,
     dict_get fields mime = Some payload ->
     handler_outcome self (DisplayCall mime payload) v = Some r -> benign r) ->
  exists s', display_one self (JObj fields) (JStr mime) s = (Ok tt, s').
Proof.
  intros Hbenign. unfold display_one, except_KeyError_pass.
  destruct (_handle_display_data self !! mime) as [handler|] eqn:Hh;
    [|eexists; reflexivity].
  unfold sbind, slift, subscript, call_display.
  destruct (dict_get fields mime) as [payload|]; [|eexists; reflexivity].
  specialize (Hbenign payload (st_view s)
                (fst (handler payload (st_view s))) eq_refl).
  cbn [handler_outcome] in Hbenign. rewrite Hh in Hbenign.
  specialize (Hbenign eq_refl).
  destruct (handler payload (st_view s)) as [r v].
  destruct Hbenign as [Hr|Hr]; cbn in Hr; subst r; eexists; reflexivity.
Qed.

Lemma result_one_ok self code fields mime s :
  (forall payload v r,
     dict_get fields mime = Some payload ->
     handler_outcome self (ResultCall mime code payload) v = Some r ->
     benign r) ->
  exists s', result_one self code (JObj fields) (JStr mime) s = (Ok tt, s').
Proof.
  intros Hbenign. unfold result_one, except_KeyError_pass.
  destruct (_run_commands self !! mime) as [handler|] eqn:Hh;
    [|eexists; reflexivity].
  unfold sbind, slift, subscript, call_result.
  destruct (dict_get fields mime) as [payload|]; [|eexists; reflexivity].
  specialize (Hbenign payload (st_view s)
                (fst (handler code payload (st_view s))) eq_refl).
  cbn [handler_outcome] in Hbenign. rewrite Hh in Hbenign.
  specialize (Hbenign eq_refl).
  destruct (handler code payload (st_view s)) as [r v].
  destruct Hbenign as [Hr|Hr]; cbn in Hr; subst r; eexists; reflexivity.
Qed.

Lemma matched_in_intro {H} (registry : gmap string H) mk fields payload mime :
  dict_get fields "data" = Some (JObj payload) ->
  In mime (dict_keys payload) ->
  is_Some (registry !! mime) ->
  forall p, dict_get payload mime = Some p ->
  In (mk mime p) (matched_in registry mk (JObj fields)).
Proof.
  intros Hdata Hmime [h Hh] p Hp. unfold matched_in.
  rewrite extract_data_dict, Hdata. cbn [default].
  apply in_flat_map. exists mime. split; [exact Hmime|].
  unfold matched_key. rewrite Hh, Hp. by left.
Qed.

Lemma display_block_ok self content s :
  (exists fields, content = JObj fields /\
     (dict_get fields "data" = None \/
      exists payload, dict_get fields "data" = Some (JObj payload))) ->
  benign_on self (matched_in (_handle_display_data self) DisplayCall content) ->
  exists s', display_block self content s = (Ok tt, s').
Proof.
  intros (fields & -> & Hdata) Hbenign.
  unfold display_block, sbind, slift. rewrite extract_data_dict.
  destruct Hdata as [Hdata|[payload Hdata]]; rewrite Hdata; cbn.
  - eexists; reflexivity.
  - apply for_each_ok. intros x t Hx.
    apply in_map_iff in Hx as (mime & <- & Hmime).
    apply display_one_ok. intros p v r Hp Hr.
    apply (Hbenign (DisplayCall mime p) v); [|exact Hr].
    apply (matched_in_intro _ DisplayCall fields payload mime); try done.
    cbn in Hr. destruct (_handle_display_data self !! mime); [eauto|done].
Qed.

Lemma result_block_ok self code content s :
  (exists fields, content = JObj fields /\
     (dict_get fields "data" = None \/
      exists payload, dict_get fields "data" = Some (JObj payload))) ->
  benign_on self
    (matched_in (_run_commands self)
       (fun mime payload => ResultCall mime code payload) content) ->
  exists s', result_block self code content s = (Ok tt, s').
Proof.
  intros (fields & -> & Hdata) Hbenign.
  unfold result_block, sbind, slift. rewrite extract_data_dict.
  destruct Hdata as [Hdata|[payload Hdata]]; rewrite Hdata; cbn.
  - eexists; reflexivity.
  - apply for_each_ok. intros x t Hx.
    apply in_map_iff in Hx as (mime & <- & Hmime).
    apply result_one_ok. intros p v r Hp Hr.
    apply (Hbenign (ResultCall mime code p) v); [|exact Hr].
    apply (matched_in_intro _ (fun mime payload => ResultCall mime code payload)
             fields payload mime); try done.
    cbn in Hr. destruct (_run_commands self !! mime); [eauto|done].
Qed.

Lemma display_step_ok self reply s :
  Forall (fun message => well_formed message = true) reply ->
  benign_on self (matched_display_calls self reply) ->
  exists s', display_step self reply s = (Ok tt, s').
Proof.
  intros Hwf Hbenign. unfold display_step, sbind, slift.
  rewrite extract_content_well_formed by assumption.
  apply for_each_ok. intros content t Hcontent.
  pose proof (contents_of_well_formed reply MSG_TYPE_DISPLAY_DATA Hwf) as Hc.
  rewrite Forall_forall in Hc.
  apply display_block_ok; [apply Hc; by apply list_elem_of_In|].
  intros c v r Hin. apply Hbenign.
  unfold matched_display_calls. apply in_flat_map. eauto.
Qed.

Lemma result_step_ok self code reply s :
  Forall (fun message => well_formed message = true) reply ->
  (length (contents_of reply MSG_TYPE_EXECUTE_RESULT) <= 1)%nat ->
  benign_on self (matched_result_calls self code reply) ->
  exists s', result_step self code reply s = (Ok tt, s').
Proof.
  intros Hwf Hlen Hbenign. unfold result_step, sbind, slift.
  rewrite extract_content_well_formed by assumption.
  pose proof (contents_of_well_formed reply MSG_TYPE_EXECUTE_RESULT Hwf) as Hc.
  unfold matched_result_calls in Hbenign.
  destruct (contents_of reply MSG_TYPE_EXECUTE_RESULT) as [|result [|]];
    [eexists; reflexivity| |cbn in Hlen; lia].
  apply result_block_ok; [by inversion Hc|].
  intros c v r Hin. apply Hbenign. cbn. by rewrite app_nil_r.
Qed.


(** *** The two ends of the result step *)

Lemma run_handlers_app self (a b : list call) v :
  run_handlers self (a ++ b) v = run_handlers self b (run_handlers self a v).
Proof. unfold run_handlers. by rewrite fold_left_app. Qed.

(** What a loop has done to the view, when it completes. *)
Lemma for_each_effect {A} self (body : A -> M unit) (g : A -> list call) xs :
  (forall x s s',
     body x s = (Ok tt, s') ->
     st_view s' = run_handlers self (g x) (st_view s)) ->
  forall s s',
    for_each xs body s = (Ok tt, s') ->
    st_view s' = run_handlers self (flat_map g xs) (st_view s).
Proof.
  intros Hbody. induction xs as [|x xs IH]; intros s s' H.
  - cbn in H. by inversion H.
  - cbn [for_each] in H. unfold sbind in H.
    destruct (body x s) as [[[]|e] s1] eqn:Hx; [|discriminate H].
    apply Hbody in Hx. apply IH in H.
    cbn [flat_map]. by rewrite run_handlers_app, <- Hx.
Qed.

Lemma run_handlers_display self mime payload handler v :
  _handle_display_data self !! mime = Some handler ->
  run_handlers self [DisplayCall mime payload] v = snd (handler payload v).
Proof. intros H. unfold run_handlers. cbn [fold_left]. by rewrite H. Qed.

Lemma display_one_effect self display_data mime_type s s' :
  display_one self display_data mime_type s = (Ok tt, s') ->
  st_view s' =
  run_handlers self
    match display_data, mime_type with
    | JObj fields, JStr mime =>
        matched_key (_handle_display_data self) DisplayCall fields mime
    | _, _ => []
    end (st_view s).
Proof.
  unfold display_one, except_KeyError_pass.
  destruct mime_type as [| | | |mime| |];
    try (cbn; intros H; inversion H; subst; by destruct display_data).
  destruct (_handle_display_data self !! mime) as [handler|] eqn:Hh.
  - unfold sbind, slift, call_display, subscript.
    destruct display_data as [| | | | | |fields];
      try (cbn; intros H; by inversion H).
    unfold matched_key. rewrite Hh.
    destruct (dict_get fields mime) as [payload|];
      [|cbn; intros H; by inversion H].
    rewrite (run_handlers_display _ _ _ _ _ Hh).
    destruct (handler payload (st_view s)) as [[[]|e] v];
      [|destruct e]; cbn; intros H; by inversion H.
  - cbn. intros H; inversion H; subst.
    destruct display_data as [| | | | | |fields]; try reflexivity.
    unfold matched_key. by rewrite Hh.
Qed.

Lemma run_handlers_nil_map {A} self (xs : list A) v :
  run_handlers self (flat_map (fun _ => @nil call) xs) v = v.
Proof. by rewrite flat_map_nil. Qed.

Lemma display_block_effect self content s s' :
  display_block self content s = (Ok tt, s') ->
  st_view s' =
  run_handlers self
    (matched_in (_handle_display_data self) DisplayCall content) (st_view s).
Proof.
  unfold display_block, matched_in, sbind, slift.
  destruct (extract_data content) as [display_data|]; [|discriminate].
  destruct (py_iter display_data) as [mime_types|] eqn:Hiter; [|discriminate].
  intros H.
  eapply for_each_effect in H;
    [|intros x t t' Hx; exact (display_one_effect _ _ _ _ _ Hx)].
  rewrite H. f_equal.
  destruct display_data; try apply flat_map_nil.
  cbn in Hiter. inversion Hiter; subst. apply flat_map_JStr.
Qed.

(** When the display step completes, the view is what the handlers owed
    to the [display_data] blocks of the stream make of it, applied in
    order to their payloads. *)
Lemma display_step_effect self reply s s' :
  display_step self reply s = (Ok tt, s') ->
  st_view s' =
  run_handlers self (matched_display_calls self reply) (st_view s).
Proof.
  unfold display_step, matched_display_calls, sbind, slift.
  destruct (extract_content reply MSG_TYPE_DISPLAY_DATA) as [contents|] eqn:Hc;
    [|discriminate].
  apply extract_content_contents in Hc as <-.
  apply for_each_effect. intros x t t'. apply display_block_effect.
Qed.

(** C3 (as stated, refuted).  The stream holds two [execute_result]
    blocks, and the display handler registered for [text/a] raises
    [TypeError] on the first payload.  The callback ends with that
    exception at the display loop: it never reaches the unpacking, so the
    failure is not the one for too many results, and of the three display
    invocations owed to the stream only the first has taken place. *)
Lemma too_many_results_counterexample :
  contents_of stream_two_results MSG_TYPE_EXECUTE_RESULT =
    [JObj [("data", JObj [("text/plain", JStr "2")])];
     JObj [("data", JObj [("text/plain", JStr "3")])]] /\
  matched_display_calls (connection_ab TypeError) stream_two_results =
    [DisplayCall "text/a" (JNum 1); DisplayCall "text/b" (JNum 2);
     DisplayCall "text/b" (JNum 3)] /\
  callback (connection_ab TypeError) "1+1" stream_two_results empty_state =
    (Raise TypeError,
     {| st_view := [];
        st_calls := [(DisplayCall "text/a" (JNum 1), Raise TypeError)] |}) /\
  callback (connection_ab TypeError) "1+1" stream_two_results empty_state <>
    (Raise ValueError,
     snd (callback (connection_ab TypeError) "1+1" stream_two_results
            empty_state)).
Proof. vm_compute. repeat split. discriminate. Qed.

(** C3 (amended).  Let the stream, made of well-formed envelopes, hold
    more than one [execute_result] content block, and let every display
    handler matched by a [display_data] payload of the stream return or
    raise [KeyError].  Then the display step completes; the
    result-handling step fails with the [ValueError] of the unpacking
    (the too-many-results failure of the specification), and so does the
    callback; and by then every display handler matched by a payload of
    the stream has been invoked: the record holds these invocations in
    order, and the view is what these handlers, applied in order to their
    payloads, have made of it.  (A display handler that raises another
    exception ends the callback before the result step.) *)
Theorem too_many_results
    (self : KernelConnection) (code : string) (reply : list json)
    (s : hstate) :
  Forall (fun message => well_formed message = true) reply ->
  (1 < length (contents_of reply MSG_TYPE_EXECUTE_RESULT))%nat ->
  benign_on self (matched_display_calls self reply) ->
  exists s',
    display_step self reply s = (Ok tt, s') /\
    result_step self code reply s' = (Raise ValueError, s') /\
    callback self code reply s = (Raise ValueError, s') /\
    invoked s' = invoked s ++ matched_display_calls self reply /\
    st_view s' =
      run_handlers self (matched_display_calls self reply) (st_view s).
Proof.
  intros Hwf Hlen Hbenign.
  destruct (display_step_ok self reply s Hwf Hbenign) as [s' Hdisplay].
  assert (Hstep : result_step self code reply s' = (Raise ValueError, s')).
  { unfold result_step, sbind, slift.
    rewrite extract_content_well_formed by assumption.
    destruct (contents_of reply MSG_TYPE_EXECUTE_RESULT) as [|r1 [|r2 rs]];
      cbn in Hlen; [lia|lia|reflexivity]. }
  exists s'. split; [exact Hdisplay|]. split; [exact Hstep|]. split.
  - unfold callback, sbind. rewrite Hdisplay. exact Hstep.
  - split; [by apply display_step_invoked|by apply display_step_effect].
Qed.

Lemma too_many_results_witness :
  exists s',
    callback (connection_ab KeyError) "1+1" stream_two_results empty_state
      = (Raise ValueError, s') /\
    invoked s' =
      [DisplayCall "text/a" (JNum 1); DisplayCall "text/b" (JNum 2);
       DisplayCall "text/b" (JNum 3)] /\
    st_view s' = ["b"; "b"].
Proof.
  destruct (too_many_results (connection_ab KeyError) "1+1"
              stream_two_results empty_state)
    as (s' & _ & _ & Hcallback & Hinvoked & Hview).
  - repeat constructor.
  - vm_compute. lia.
  - intros c v r Hin Hr. vm_compute in Hin.
    destruct Hin as [<-|[<-|[<-|[]]]]; vm_compute in Hr;
      inversion Hr; subst; first [by left | by right].
  - exists s'. split; [exact Hcallback|]. split; [exact Hinvoked|].
    exact Hview.
Defined.

(** C10.  Let the stream hold no [execute_result] content block, and let
    the display step complete.  Then the callback returns normally in the
    state the display step left: the invocations made are those of the
    display handlers, and no result handler is among them. *)
Theorem no_result_returns
    (self : KernelConnection) (code : string) (reply : list json)
    (s s' : hstate) :
  extract_content reply MSG_TYPE_EXECUTE_RESULT = Ok [] ->
  display_step self reply s = (Ok tt, s') ->
  callback self code reply s = (Ok tt, s') /\
  invoked s' = invoked s ++ matched_display_calls self reply /\
  Forall (fun c => is_result_call c = false) (matched_display_calls self reply).
Proof.
  intros Hresults Hdisplay. split; [|split].
  - unfold callback, sbind. rewrite Hdisplay.
    unfold result_step, sbind, slift. rewrite Hresults. reflexivity.
  - by apply display_step_invoked.
  - apply matched_display_calls_display.
Qed.

Lemma no_result_returns_witness :
  exists s',
    callback (connection_ab KeyError) "1+1" stream_no_result empty_state
      = (Ok tt, s') /\
    invoked s' =
      [DisplayCall "text/a" (JNum 1); DisplayCall "text/b" (JNum 2);
       DisplayCall "text/b" (JNum 3)].
Proof.
  eexists.
  refine (let H := no_result_returns (connection_ab KeyError) "1+1"
                     stream_no_result empty_state _ _ _ in
          conj (proj1 H) (proj1 (proj2 H))).
  - reflexivity.
  - vm_compute. reflexivity.
Defined.

(** ** The worker *)

Section WorkerFacts.
Context {W : Type}.
Variable kernel : json -> connection.

Implicit Types (s : system W) (t : task W) (l : list (event W)) (w : W).

Lemma submitted_app l l' : submitted (l ++ l') = submitted l ++ submitted l'.
Proof. induction l as [|[] l IH]; cbn; by rewrite ?IH. Qed.

Lemma started_app l l' : started (l ++ l') = started l ++ started l'.
Proof. induction l as [|[] l IH]; cbn; by rewrite ?IH. Qed.

Lemma ended_app l l' : ended (l ++ l') = ended l ++ ended l'.
Proof. induction l as [|[] l IH]; cbn; by rewrite ?IH. Qed.

Lemma fired_app l l' : fired (l ++ l') = fired l ++ fired l'.
Proof. induction l as [|[] l IH]; cbn; by rewrite ?IH. Qed.

Lemma fired_printed (r : outcome unit) : fired (@printed W r) = [].
Proof. by destruct r. Qed.

Lemma started_printed (r : outcome unit) : started (@printed W r) = [].
Proof. by destruct r. Qed.

Lemma ended_printed (r : outcome unit) : ended (@printed W r) = [].
Proof. by destruct r. Qed.

Lemma submitted_printed (r : outcome unit) : submitted (@printed W r) = [].
Proof. by destruct r. Qed.

Lemma invariant_start (w : W) : dispatcher_invariant kernel (start w).
Proof.
  unfold dispatcher_invariant. cbn. repeat split. by exists [].
Qed.

Lemma invariant_step s s' :
  dispatcher_invariant kernel s -> step kernel s s' ->
  dispatcher_invariant kernel s'.
Proof.
  intros (Hfifo & (finished & Hstarted & Hfired) & Hreply & Hflight) Hstep.
  unfold dispatcher_invariant, in_flight in *.
  destruct Hstep as [t s|s s' Hrun].
  - cbn. rewrite submitted_app, started_app, fired_app, ended_app. cbn.
    rewrite !app_nil_r, Hfifo, <- app_assoc. eauto 10.
  - unfold run_step in Hrun. destruct (worker s) as [|t|t reply] eqn:Hw.
    + destruct (message_queue s) as [|t rest] eqn:Hq; [discriminate Hrun|].
      inversion Hrun; subst; clear Hrun. cbn.
      rewrite submitted_app, started_app, fired_app, ended_app. cbn.
      rewrite !app_nil_r, Hfifo, <- app_assoc in *. cbn.
      split; [done|]. split; [|split; [done|rewrite length_app; cbn; lia]].
      exists finished. by rewrite Hstarted.
    + cbn in Hstarted.
      destruct (_communicate kernel (task_message t)) as [reply|err] eqn:Hc;
        inversion Hrun; subst; clear Hrun; cbn;
        rewrite submitted_app, started_app, fired_app, ended_app; cbn;
        rewrite !app_nil_r, Hfifo.
      * split; [done|]. split; [by exists finished|].
        split; [done|rewrite length_app; cbn; lia].
      * split; [done|]. split; [|split; [done|rewrite length_app; cbn; lia]].
        exists (finished ++ [t]). split; [by rewrite app_nil_r|].
        rewrite List.filter_app. cbn. unfold exchange_ok at 2.
        by rewrite Hc, app_nil_r.
    + cbn in Hstarted.
      destruct (task_callback t reply (world s)) as [r w] eqn:Hcb.
      inversion Hrun; subst; clear Hrun. cbn.
      rewrite submitted_app, started_app, fired_app, ended_app. cbn.
      rewrite submitted_printed, started_printed, fired_printed, ended_printed.
      rewrite !app_nil_r, Hfifo.
      split; [done|]. split; [|split; [done|lia]].
      exists (finished ++ [t]). split; [by rewrite app_nil_r|].
      rewrite List.filter_app. cbn. unfold exchange_ok at 2.
      by rewrite Hreply, Hfired.
Qed.

Lemma invariant_reachable w s :
  reachable kernel w s -> dispatcher_invariant kernel s.
Proof.
  induction 1 as [|s s' _ IH Hstep]; [apply invariant_start|].
  by apply (invariant_step s).
Qed.

Lemma run_S n s s' :
  run_step kernel s = Some s' -> run kernel (S n) s = run kernel n s'.
Proof. intros H. cbn. by rewrite H. Qed.

(** The worker alone empties the queue: each task is taken in turn, its
    callback fired when its exchange returned, and the worker ends idle,
    blocked on the empty queue. *)
Lemma run_drains queue : forall s n,
  worker s = Idle ->
  message_queue s = queue ->
  (3 * length queue <= n)%nat ->
  worker (run kernel n s) = Idle /\
  message_queue (run kernel n s) = [] /\
  submitted (log (run kernel n s)) = submitted (log s) /\
  started (log (run kernel n s)) = started (log s) ++ queue /\
  fired (log (run kernel n s)) =
    fired (log s) ++ List.filter (exchange_ok kernel) queue.
Proof.
  induction queue as [|t queue IH]; intros s n Hw Hq Hn.
  - assert (Hrun : run kernel n s = s).
    { destruct n; [reflexivity|]. cbn. unfold run_step. by rewrite Hw, Hq. }
    rewrite Hrun, !app_nil_r. by repeat split.
  - cbn [length] in Hn.
    destruct n as [|n]; [lia|].
    erewrite run_S by (unfold run_step; rewrite Hw, Hq; reflexivity).
    destruct n as [|n]; [lia|].
    unfold exchange_ok at 1. cbn [List.filter].
    destruct (_communicate kernel (task_message t)) as [reply|err] eqn:Hc.
    + erewrite run_S by (unfold run_step; cbn; rewrite Hc; reflexivity).
      destruct n as [|n]; [lia|].
      destruct (task_callback t reply (world s)) as [r w] eqn:Hcb.
      erewrite run_S by (unfold run_step; cbn; rewrite Hcb; reflexivity).
      match goal with |- context [run kernel n ?s1] =>
        destruct (IH s1 n) as (H1 & H2 & H3 & H4 & H5);
          [reflexivity|reflexivity|lia|];
        rewrite H1, H2, H3, H4, H5 end.
      cbn [log].
      rewrite !submitted_app, !started_app, !fired_app. cbn.
      rewrite submitted_printed, started_printed, fired_printed.
      rewrite !app_nil_r, <- !app_assoc. by repeat split.
    + erewrite run_S by (unfold run_step; cbn; rewrite Hc; reflexivity).
      match goal with |- context [run kernel n ?s1] =>
        destruct (IH s1 n) as (H1 & H2 & H3 & H4 & H5);
          [reflexivity|reflexivity|lia|];
        rewrite H1, H2, H3, H4, H5 end.
      cbn [log].
      rewrite !submitted_app, !started_app, !fired_app. cbn.
      rewrite !app_nil_r, <- !app_assoc. by repeat split.
Qed.

Lemma submit_all_spec ts : forall s,
  worker (submit_all ts s) = worker s /\
  world (submit_all ts s) = world s /\
  message_queue (submit_all ts s) = message_queue s ++ ts /\
  submitted (log (submit_all ts s)) = submitted (log s) ++ ts /\
  started (log (submit_all ts s)) = started (log s) /\
  fired (log (submit_all ts s)) = fired (log s).
Proof.
  induction ts as [|t ts IH]; intros s; cbn.
  - rewrite !app_nil_r. by repeat split.
  - destruct (IH (_async_communicate t s)) as (H1 & H2 & H3 & H4 & H5 & H6).
    unfold submit_all in *. rewrite H1, H2, H3, H4, H5, H6. cbn.
    rewrite submitted_app, started_app, fired_app. cbn.
    rewrite !app_nil_r, <- !app_assoc. by repeat split.
Qed.

Lemma reachable_submit_all w ts s :
  reachable kernel w s -> reachable kernel w (submit_all ts s).
Proof.
  revert s. induction ts as [|t ts IH]; intros s Hs; [exact Hs|].
  cbn. apply IH. eapply reachable_step; [exact Hs|constructor].
Qed.

Lemma reachable_run w n s :
  reachable kernel w s -> reachable kernel w (run kernel n s).
Proof.
  revert s. induction n as [|n IH]; intros s Hs; [exact Hs|].
  cbn. destruct (run_step kernel s) as [s'|] eqn:Hrun; [|exact Hs].
  apply IH. eapply reachable_step; [exact Hs|by constructor].
Qed.

End WorkerFacts.

(** C1 (as stated, refuted).  A task is submitted to a kernel that
    cannot be reached.  The exchange fails, the worker prints the
    exception and goes back to the queue; the callback of the task has
    not been invoked at all, with an error value or otherwise. *)
Lemma exchange_failure_counterexample :
  let t := counting_task 1 in
  let s := run kernel_refusing 3 (_async_communicate t (start 0%nat)) in
  _communicate kernel_refusing (task_message t)
    = Raise (OtherError "ConnectionRefusedError") /\
  worker s = Idle /\
  message_queue s = [] /\
  log s = [EvPut t; EvExchangeStart t;
           EvExchangeEnd t (Raise (OtherError "ConnectionRefusedError"));
           EvPrint (OtherError "ConnectionRefusedError")] /\
  fired (log s) = [] /\
  world s = 0%nat.
Proof. vm_compute. repeat split. Qed.

(** C1 (amended).  For every task consumed by the worker whose exchange
    fails, the failure is caught at the worker boundary and printed: the
    worker returns to the queue, leaving the world as it was, and the
    callback of the task is invoked in no state of the connection. *)
Theorem exchange_failure_printed
    {W : Type} (kernel : json -> connection) (w : W) :
  (forall (s : system W) t e,
     worker s = Exchanging t ->
     _communicate kernel (task_message t) = Raise e ->
     exists s',
       run_step kernel s = Some s' /\
       worker s' = Idle /\
       world s' = world s /\
       message_queue s' = message_queue s /\
       log s' = log s ++ [EvExchangeEnd t (Raise e); EvPrint e]) /\
  (forall (s : system W) t,
     reachable kernel w s ->
     exchange_ok kernel t = false ->
     ~ In t (fired (log s))).
Proof.
  split.
  - intros s t e Hw He. unfold run_step. rewrite Hw, He.
    eexists. split; [reflexivity|]. by repeat split.
  - intros s t Hs Hfail Hin.
    apply invariant_reachable in Hs
      as (_ & (finished & _ & Hfired) & _ & _).
    rewrite Hfired in Hin. apply List.filter_In in Hin as [_ Hok].
    congruence.
Qed.

Lemma exchange_failure_printed_witness :
  (exists s',
     run_step kernel_refusing
       (run kernel_refusing 1
          (_async_communicate (counting_task 1) (start 0%nat))) = Some s' /\
     worker s' = Idle /\
     world s' = 0%nat /\
     message_queue s' = [] /\
     log s' =
       [EvPut (counting_task 1); EvExchangeStart (counting_task 1)] ++
       [EvExchangeEnd (counting_task 1)
          (Raise (OtherError "ConnectionRefusedError"));
        EvPrint (OtherError "ConnectionRefusedError")]) /\
  ~ In (counting_task 1)
      (fired (log (run kernel_refusing 3
                     (_async_communicate (counting_task 1) (start 0%nat))))).
Proof.
  split.
  - apply (proj1 (exchange_failure_printed kernel_refusing 0%nat)
             (run kernel_refusing 1
                (_async_communicate (counting_task 1) (start 0%nat)))
             (counting_task 1) (OtherError "ConnectionRefusedError"));
      reflexivity.
  - apply (proj2 (exchange_failure_printed kernel_refusing 0%nat)).
    + apply reachable_run.
      eapply reachable_step; [apply reachable_start|constructor].
    + reflexivity.
Defined.

(** ** First in, first out *)



(** ** Handlers that raise *)




(** * Further properties *)

(** ** [extract_content] *)

(** X1.  When [extract_content] returns, the list returned holds exactly
    the content blocks of the messages whose [header.msg_type] is the
    type asked for, in arrival order; it is never longer than the
    stream. *)
Theorem extract_content_selects
    (reply : list json) (msg_type : string) (contents : list json) :
  extract_content reply msg_type = Ok contents ->
  contents = contents_of reply msg_type /\
  (length contents <= length reply)%nat /\
  (forall content,
     In content contents <->
     exists message,
       In message reply /\
       header_msg_type message = Some msg_type /\
       subscript message "content" = Ok content).
Proof.
  intros H. apply extract_content_contents in H as ->.
  split; [reflexivity|]. split.
  - induction reply as [|message reply IH]; [done|].
    rewrite contents_of_cons, length_app. cbn [length].
    case_decide; [destruct (subscript message "content")|]; cbn; lia.
  - intros content. induction reply as [|message reply IH].
    + cbn. split; [done|]. by intros (m & [] & _).
    + rewrite contents_of_cons, in_app_iff, IH. split.
      * intros [Hhere|(m & Hm & Hrest)]; [|exists m; split; [by right|done]].
        case_decide; [|done].
        destruct (subscript message "content") as [c|] eqn:Hc; [|done].
        destruct Hhere as [<-|[]]. exists message. by split; [left|].
      * intros (m & [<-|Hm] & Hty & Hc); [left|right; eauto].
        rewrite decide_True, Hc by done. by left.
Qed.

Lemma extract_content_selects_witness :
  extract_content stream_two_results MSG_TYPE_EXECUTE_RESULT =
    Ok (contents_of stream_two_results MSG_TYPE_EXECUTE_RESULT) /\
  (length (contents_of stream_two_results MSG_TYPE_EXECUTE_RESULT)
   <= length stream_two_results)%nat.
Proof.
  destruct (extract_content_selects stream_two_results MSG_TYPE_EXECUTE_RESULT
              [JObj [("data", JObj [("text/plain", JStr "2")])];
               JObj [("data", JObj [("text/plain", JStr "3")])]] eq_refl)
    as (H1 & H2 & _).
  split; [by rewrite <- H1|by rewrite <- H1].
Defined.

(** X2.  Selecting from two streams put end to end is selecting from each
    in turn: the results are concatenated, and the first exception, in
    stream order, is the one raised. *)
Theorem extract_content_app (a b : list json) (msg_type : string) :
  extract_content (a ++ b) msg_type =
  (xs <- extract_content a msg_type ;;
   ys <- extract_content b msg_type ;;
   Ok (xs ++ ys)).
Proof.
  induction a as [|message a IH].
  - cbn. by destruct (extract_content b msg_type).
  - cbn [app extract_content].
    destruct (subscript message "header") as [header|]; [|done].
    cbn [rbind].
    destruct (subscript header "msg_type") as [t|]; [|done].
    cbn [rbind].
    destruct (eq_str t msg_type); [|exact IH].
    destruct (subscript message "content") as [content|]; [|done].
    cbn [rbind]. rewrite IH.
    destruct (extract_content a msg_type) as [xs|]; [|done].
    cbn [rbind].
    by destruct (extract_content b msg_type).
Qed.

(** X3.  [extract_content] returns exactly when every message of the
    stream, of the type asked for or not, has a header with a readable
    [msg_type], and every message of the type asked for has a content
    block.  One message without a header makes the whole selection
    raise. *)
Theorem extract_content_returns_iff (reply : list json) (msg_type : string) :
  (exists contents, extract_content reply msg_type = Ok contents) <->
  List.Forall (routable msg_type) reply.
Proof.
  induction reply as [|message reply IH].
  - split; [constructor|by exists []].
  - cbn [extract_content]. split.
    + intros [contents H].
      destruct (subscript message "header") as [header|] eqn:Hh;
        cbn [rbind] in H; [|discriminate H].
      destruct (subscript header "msg_type") as [t|] eqn:Ht;
        cbn [rbind] in H; [|discriminate H].
      destruct (eq_str t msg_type) eqn:Heq.
      * destruct (subscript message "content") as [content|] eqn:Hc;
          cbn [rbind] in H; [|discriminate H].
        destruct (extract_content reply msg_type) as [rest|];
          cbn [rbind] in H; [|discriminate H].
        constructor; [|apply IH; eauto].
        exists header, t. rewrite Heq. eauto.
      * constructor; [|apply IH; eauto].
        exists header, t. rewrite Heq. repeat split; done.
    + intros H. inversion H as [|m l (header & t & Hh & Ht & Hc) Hrest]; subst.
      apply IH in Hrest as [rest Hrest].
      rewrite Hh. cbn [rbind]. rewrite Ht. cbn [rbind].
      destruct (eq_str t msg_type); [|eauto].
      destruct Hc as [content Hc]; [done|].
      rewrite Hc, Hrest. cbn. eauto.
Qed.

Lemma extract_content_returns_iff_witness :
  (exists contents,
     extract_content stream_no_result MSG_TYPE_DISPLAY_DATA = Ok contents) /\
  ~ List.Forall (routable MSG_TYPE_DISPLAY_DATA)
      [display_frame []; JObj [("content", JObj [])]].
Proof.
  split.
  - apply (proj2 (extract_content_returns_iff stream_no_result
                    MSG_TYPE_DISPLAY_DATA)).
    repeat constructor;
      (eexists _, _; split; [reflexivity|split; [reflexivity|]];
       intros _; eexists; reflexivity).
  - intros H.
    apply (proj2 (extract_content_returns_iff
                    [display_frame []; JObj [("content", JObj [])]]
                    MSG_TYPE_DISPLAY_DATA)) in H as [contents H].
    vm_compute in H. discriminate H.
Defined.

(** ** [_communicate], read backwards *)

Lemma recv_loop_returns frames closed : forall replies result,
  recv_loop frames closed replies = Ok result ->
  exists pre last rest,
    frames = map RecvText pre ++ RecvText last :: rest /\
    result = replies ++ pre ++ [last] /\
    List.Forall (fun f => not_reply (top_msg_type f) = true) pre /\
    is_reply (top_msg_type last) = true.
Proof.
  induction frames as [|[f|] frames IH]; intros replies result H;
    [discriminate H| |discriminate H].
  cbn [recv_loop] in H.
  destruct (subscript f "msg_type") as [t|] eqn:Ht;
    cbn [rbind] in H; [|discriminate H].
  destruct t; try discriminate H. cbn in H.
  destruct (str_endswith s "_reply") eqn:Hs.
  - inversion H; subst. exists [], f, frames.
    repeat split; [constructor|]. unfold top_msg_type. by rewrite Ht.
  - apply IH in H as (pre & last & rest & -> & -> & Hpre & Hlast).
    exists (f :: pre), last, rest.
    split; [reflexivity|]. split; [by rewrite <- app_assoc|].
    split; [|exact Hlast]. constructor; [|exact Hpre].
    unfold top_msg_type. rewrite Ht. cbn. by rewrite Hs.
Qed.

(** X4.  Whenever [_communicate] returns, the connection was opened and
    the request sent, and the list returned is a prefix of the frames
    received: it is not empty, its last frame is the first one whose
    top-level [msg_type] ends with [_reply], and each frame before it
    carries a [str] top-level [msg_type] without that suffix. *)
Theorem communicate_returns
    (kernel : json -> connection) (message : json) (replies : list json) :
  _communicate kernel message = Ok replies ->
  conn_open (kernel message) = None /\
  conn_send (kernel message) = None /\
  exists pre last rest,
    conn_frames (kernel message) = map RecvText pre ++ RecvText last :: rest /\
    replies = pre ++ [last] /\
    List.Forall (fun f => not_reply (top_msg_type f) = true) pre /\
    is_reply (top_msg_type last) = true.
Proof.
  unfold _communicate.
  destruct (conn_open (kernel message)); [discriminate|].
  destruct (conn_send (kernel message)); [discriminate|].
  intros H. do 2 (split; [reflexivity|]).
  apply recv_loop_returns in H as (pre & last & rest & H1 & H2 & H3 & H4).
  exists pre, last, rest. by repeat split.
Qed.

Lemma communicate_returns_witness :
  exists pre last rest,
    conn_frames (kernel_replying JNull) =
      map RecvText pre ++ RecvText last :: rest /\
    [frame "execute_reply" "execute_reply" (JObj [])] = pre ++ [last] /\
    List.Forall (fun f => not_reply (top_msg_type f) = true) pre /\
    is_reply (top_msg_type last) = true.
Proof.
  exact (proj2 (proj2 (communicate_returns kernel_replying JNull
                         [frame "execute_reply" "execute_reply" (JObj [])]
                         eq_refl))).
Defined.

(** X5.  The first frame that is not a dict with a [str] [msg_type]
    decides the exchange: text that does not decode raises [ValueError];
    a frame whose [msg_type] cannot be read raises the exception of the
    subscript ([KeyError] for a dict without the key, [TypeError] for a
    value that is not a dict); a [msg_type] that is not a [str] raises
    [AttributeError].  The frames received before are lost with it. *)
Theorem communicate_malformed_frame
    (kernel : json -> connection) (message : json)
    (pre : list json) (bad : recv_event) (rest : list recv_event) :
  conn_open (kernel message) = None ->
  conn_send (kernel message) = None ->
  conn_frames (kernel message) = map RecvText pre ++ bad :: rest ->
  List.Forall (fun f => not_reply (top_msg_type f) = true) pre ->
  (bad = RecvGarbage -> _communicate kernel message = Raise ValueError) /\
  (forall f e,
     bad = RecvText f -> subscript f "msg_type" = Raise e ->
     _communicate kernel message = Raise e) /\
  (forall f t,
     bad = RecvText f -> subscript f "msg_type" = Ok t ->
     (forall s, t <> JStr s) ->
     _communicate kernel message = Raise AttributeError).
Proof.
  intros Hopen Hsend Hframes Hpre.
  unfold _communicate. rewrite Hopen, Hsend, Hframes.
  rewrite recv_loop_prefix by assumption.
  split; [|split].
  - intros ->. reflexivity.
  - intros f e -> Hf. cbn [recv_loop]. by rewrite Hf.
  - intros f t -> Hf Ht. cbn [recv_loop]. rewrite Hf. cbn [rbind].
    destruct t; try reflexivity. by destruct (Ht s).
Qed.

Lemma communicate_malformed_frame_witness :
  _communicate
    (fun _ => {| conn_open := None; conn_send := None;
                 conn_frames := [RecvText (frame "status" "status" (JObj []));
                                 RecvGarbage];
                 conn_closed := ValueError |}) JNull = Raise ValueError /\
  _communicate
    (kernel_sending [frame "status" "status" (JObj []);
                     JObj [("header", JObj [])]]) JNull = Raise KeyError /\
  _communicate
    (kernel_sending [JObj [("msg_type", JNull)]]) JNull = Raise AttributeError.
Proof.
  split; [|split].
  - apply (proj1 (communicate_malformed_frame
                    (fun _ => {| conn_open := None; conn_send := None;
                                 conn_frames :=
                                   [RecvText (frame "status" "status" (JObj []));
                                    RecvGarbage];
                                 conn_closed := ValueError |})
                    JNull [frame "status" "status" (JObj [])] RecvGarbage []
                    eq_refl eq_refl eq_refl
                    ltac:(repeat constructor))).
    reflexivity.
  - apply (proj1 (proj2 (communicate_malformed_frame
                    (kernel_sending [frame "status" "status" (JObj []);
                                     JObj [("header", JObj [])]])
                    JNull [frame "status" "status" (JObj [])]
                    (RecvText (JObj [("header", JObj [])])) []
                    eq_refl eq_refl eq_refl
                    ltac:(repeat constructor)))
             (JObj [("header", JObj [])]) KeyError); reflexivity.
  - apply (proj2 (proj2 (communicate_malformed_frame
                    (kernel_sending [JObj [("msg_type", JNull)]])
                    JNull [] (RecvText (JObj [("msg_type", JNull)])) []
                    eq_refl eq_refl eq_refl
                    ltac:(constructor)))
             (JObj [("msg_type", JNull)]) JNull); [reflexivity..|].
    intros s. discriminate.
Defined.

(** ** [get_complete], read backwards *)



Lemma header_msg_type_inv frame s :
  header_msg_type frame = Some s ->
  exists header,
    subscript frame "header" = Ok header /\
    subscript header "msg_type" = Ok (JStr s).
Proof.
  unfold header_msg_type.
  destruct (subscript frame "header") as [header|]; [|done].
  destruct (subscript header "msg_type") as [[]|] eqn:Ht; try done.
  intros [= ->]. eauto.
Qed.

Lemma extract_content_skip pre rest msg_type :
  List.Forall (fun f => exists s, header_msg_type f = Some s /\ s <> msg_type)
    pre ->
  extract_content (pre ++ rest) msg_type = extract_content rest msg_type.
Proof.
  induction 1 as [|f pre (s & Hs & Hne) _ IH]; [reflexivity|].
  apply header_msg_type_inv in Hs as (header & Hh & Ht).
  cbn [app extract_content]. rewrite Hh. cbn [rbind]. rewrite Ht.
  cbn [rbind eq_str].
  destruct (String.eqb_spec s msg_type); [done|exact IH].
Qed.

(** X7.  When the frames returned by the exchange each carry the same
    type in the header and at top level, the outcome of [get_complete]
    is decided by the terminal frame alone: no frame before it is a
    [complete_reply]; if the terminal frame is one, the result is its
    [matches] (or the exception of reading it), and if it is a reply of
    another type the call raises [ValueError]. *)
Theorem get_complete_terminal
    (kernel : json -> connection) (kernel_id msg_id now code : string)
    (cursor_pos : Z) (reply : list json) :
  _communicate kernel (complete_request kernel_id msg_id now code cursor_pos)
    = Ok reply ->
  List.Forall consistent reply ->
  exists pre last,
    reply = pre ++ [last] /\
    extract_content pre MSG_TYPE_COMPLETE_REPLY = Ok [] /\
    get_complete kernel kernel_id msg_id now code cursor_pos =
    if decide (header_msg_type last = Some MSG_TYPE_COMPLETE_REPLY)
    then (content <- subscript last "content" ;; subscript content "matches")
    else Raise ValueError.
Proof.
  intros Hreply Hcons.
  assert (exists pre last,
            reply = pre ++ [last] /\
            List.Forall (fun f => not_reply (top_msg_type f) = true) pre /\
            is_reply (top_msg_type last) = true)
    as (pre & last & -> & Hpre & Hlast).
  { unfold _communicate in Hreply.
    destruct (conn_open (kernel _)); [discriminate Hreply|].
    destruct (conn_send (kernel _)); [discriminate Hreply|].
    apply recv_loop_returns in Hreply
      as (pre & last & rest & _ & -> & Hpre & Hlast).
    by exists pre, last. }
  apply List.Forall_app in Hcons as [Hcpre Hclast].
  assert (Hskip : List.Forall
            (fun f => exists s, header_msg_type f = Some s /\
                                s <> MSG_TYPE_COMPLETE_REPLY) pre).
  { clear -Hpre Hcpre.
    induction Hpre as [|f pre Hf _ IH]; [constructor|].
    inversion Hcpre as [|? ? Hc Hcs]; subst.
    constructor; [|by apply IH].
    unfold consistent in Hc. rewrite Hc.
    destruct (top_msg_type f) as [s|]; [|discriminate Hf].
    exists s. split; [reflexivity|]. intros ->. discriminate Hf. }
  exists pre, last. split; [reflexivity|]. split.
  - rewrite <- (app_nil_r pre) at 1. by rewrite extract_content_skip.
  - unfold get_complete. rewrite Hreply. cbn [rbind].
    rewrite extract_content_skip by assumption.
    inversion Hclast as [|? ? Hc _]; subst.
    unfold consistent in Hc.
    destruct (top_msg_type last) as [s|] eqn:Htop; [|discriminate Hlast].
    destruct (header_msg_type_inv _ _ Hc) as (header & Hh & Ht).
    cbn [extract_content]. rewrite Hh. cbn [rbind]. rewrite Ht, Hc.
    cbn [rbind eq_str].
    destruct (String.eqb_spec s MSG_TYPE_COMPLETE_REPLY) as [->|Hne].
    + rewrite decide_True by reflexivity.
      by destruct (subscript last "content").
    + rewrite decide_False by congruence. reflexivity.
Qed.

Lemma get_complete_terminal_witness :
  get_complete kernel_replying "k1" "m1" "2017-01-01T00:00:00" "fo" 2
    = Raise ValueError.
Proof.
  destruct (get_complete_terminal kernel_replying
              "k1" "m1" "2017-01-01T00:00:00" "fo" 2
              [frame "execute_reply" "execute_reply" (JObj [])] eq_refl)
    as (pre & last & Hsplit & _ & Hresult).
  - repeat constructor.
  - destruct pre as [|f [|g pre]]; inversion Hsplit; subst.
    exact Hresult.
Defined.

(** ** The requests the client builds *)

(** X8.  What [_gen_header] and the two request builders put in a
    message is what the routing reads back: the request is an envelope
    [extract_content] selects under its own type and under no other, its
    content block yields the code (and the cursor position) given, and
    its header the [msg_id] given.  The message has no top-level
    [msg_type]: a kernel that sends the request back makes
    [_communicate] raise [KeyError]. *)
Theorem request_round_trip
    (kernel_id msg_id now code : string) (cursor_pos : Z) :
  let e := execute_request kernel_id msg_id now code in
  let c := complete_request kernel_id msg_id now code cursor_pos in
  (forall msg_type,
     extract_content [e] msg_type =
     if String.eqb MSG_TYPE_EXECUTE_REQUEST msg_type
     then content <- subscript e "content" ;; Ok [content]
     else Ok []) /\
  (content <- subscript e "content" ;; subscript content "code")
    = Ok (JStr code) /\
  (content <- subscript c "content" ;; subscript content "code")
    = Ok (JStr code) /\
  (content <- subscript c "content" ;; subscript content "cursor_pos")
    = Ok (JNum cursor_pos) /\
  (header <- subscript e "header" ;; subscript header "msg_id")
    = Ok (JStr msg_id) /\
  header_msg_type c = Some MSG_TYPE_COMPLETE_REQUEST /\
  well_formed e = true /\ well_formed c = true /\
  (forall (kernel : json -> connection) rest,
     conn_open (kernel e) = None ->
     conn_send (kernel e) = None ->
     conn_frames (kernel e) = RecvText e :: rest ->
     _communicate kernel e = Raise KeyError).
Proof.
  intros e c. split.
  - intros msg_type.
    assert (Hone : forall message header t,
              subscript message "header" = Ok header ->
              subscript header "msg_type" = Ok (JStr t) ->
              extract_content [message] msg_type =
              if String.eqb t msg_type
              then content <- subscript message "content" ;; Ok [content]
              else Ok []).
    { intros message header t Hh Ht.
      cbn [extract_content]. rewrite Hh. cbn [rbind]. rewrite Ht.
      cbn [rbind eq_str].
      destruct (String.eqb t msg_type); [|reflexivity].
      by destruct (subscript message "content"). }
    exact (Hone e _ MSG_TYPE_EXECUTE_REQUEST eq_refl eq_refl).
  - do 7 (split; [reflexivity|]).
    intros kernel rest Hopen Hsend Hframes.
    unfold _communicate. by rewrite Hopen, Hsend, Hframes.
Qed.

Lemma request_round_trip_witness :
  _communicate
    (fun message =>
       {| conn_open := None; conn_send := None;
          conn_frames := [RecvText message];
          conn_closed := ValueError |})
    (execute_request "k1" "m1" "2017-01-01T00:00:00" "1+1")
  = Raise KeyError.
Proof.
  apply (proj2 (proj2 (proj2 (proj2 (proj2 (proj2 (proj2 (proj2
           (request_round_trip "k1" "m1" "2017-01-01T00:00:00" "1+1" 0)))))))))
    with (rest := []); reflexivity.
Defined.

(** ** [_handle_text], at the edges *)

Lemma string_length_app (a b : string) :
  String.length (a +:+ b) = (String.length a + String.length b)%nat.
Proof.
  induction a as [|c a IH]; [done|].
  change (S (String.length (a +:+ b))
          = S (String.length a + String.length b)).
  by rewrite IH.
Qed.

Lemma substring_0_length (n : nat) (s : string) :
  String.length (substring 0 n s) = Nat.min n (String.length s).
Proof.
  revert s. induction n as [|n IH]; intros [|c s]; try done.
  change (S (String.length (substring 0 n s))
          = S (Nat.min n (String.length s))).
  by rewrite IH.
Qed.

Lemma substring_0_prefix (n : nat) (s : string) :
  exists tail, s = substring 0 n s +:+ tail.
Proof.
  revert s. induction n as [|n IH]; intros [|c s].
  - by exists EmptyString.
  - by exists (String c s).
  - by exists EmptyString.
  - destruct (IH s) as [tail Hs]. exists tail.
    change (String c s = String c (substring 0 n s +:+ tail)).
    by rewrite <- Hs.
Qed.

(** X9.  When the payload handed to [_handle_text] is not a [str], the
    handler raises [TypeError] at the fourth line: the three lines before
    it (the heading, the input echo and the output heading) are already
    in the view. *)
Theorem handle_text_not_str
    (L : Z) (code : string) (result : json) (v : view) :
  (forall s, result <> JStr s) ->
  exists echo,
    _handle_text L code result v =
    (Raise TypeError, v ++ ["input:" +:+ NL; echo +:+ NL; "output:" +:+ NL]).
Proof.
  intros Hresult. unfold _handle_text.
  eexists. cbn [write_lines str_add]. unfold _write_to_view.
  destruct result; try (rewrite <- !app_assoc; reflexivity).
  by destruct (Hresult s).
Qed.

Lemma handle_text_not_str_witness :
  exists echo,
    _handle_text 5 "abcdef" (JNum 42) [] =
    (Raise TypeError, [] ++ ["input:" +:+ NL; echo +:+ NL; "output:" +:+ NL]).
Proof.
  apply (handle_text_not_str 5 "abcdef" (JNum 42) []).
  intros s. discriminate.
Defined.

(** X10.  Whatever the setting, [_handle_text] on a [str] payload adds
    six texts to the view and leaves what was there.  With a setting
    [L >= 0] the input echo has at most [L + 3] characters.  With a
    negative setting the test [len(code) > L] always holds: every echo,
    that of the empty code included, is a prefix of the code followed by
    three dots, the prefix being the code without its last [-L]
    characters. *)
Theorem handle_text_echo_bounds
    (L : Z) (code result : string) (v : view) :
  exists echo,
    _handle_text L code (JStr result) v =
    (Ok tt,
     v ++ ["input:" +:+ NL; echo +:+ NL; "output:" +:+ NL;
           result +:+ NL; "---" +:+ NL; NL +:+ NL]) /\
    (0 <= L -> Z.of_nat (String.length echo) <= L + 3) /\
    (L < 0 ->
     exists head tail,
       echo = head +:+ "..." /\
       code = head +:+ tail /\
       Z.of_nat (String.length head)
         = Z.max 0 (Z.of_nat (String.length code) + L)).
Proof.
  unfold _handle_text.
  destruct (Z.of_nat (String.length code) >? L) eqn:Hgt.
  - exists (slice_to code L +:+ "..."). split; [|split].
    + apply (write_lines_strs
               ["input:"; slice_to code L +:+ "..."; "output:";
                result; "---"; NL]).
    + intros HL. unfold slice_to.
      replace (0 <=? L) with true by (symmetry; apply Z.leb_le; lia).
      rewrite string_length_app, substring_0_length. cbn. lia.
    + intros HL. unfold slice_to.
      replace (0 <=? L) with false by (symmetry; apply Z.leb_gt; lia).
      destruct (substring_0_prefix
                  (Z.to_nat (Z.of_nat (String.length code) + L)) code)
        as [tail Htail].
      eexists _, tail. split; [reflexivity|]. split; [exact Htail|].
      rewrite substring_0_length. lia.
  - exists code. split; [|split].
    + apply (write_lines_strs ["input:"; code; "output:"; result; "---"; NL]).
    + intros HL. rewrite Z.gtb_ltb in Hgt. apply Z.ltb_ge in Hgt. lia.
    + intros HL. rewrite Z.gtb_ltb in Hgt. apply Z.ltb_ge in Hgt. lia.
Qed.

Lemma handle_text_echo_bounds_witness :
  exists echo,
    _handle_text (-2) "abcdef" (JStr "42") [] =
    (Ok tt,
     [] ++ ["input:" +:+ NL; echo +:+ NL; "output:" +:+ NL;
            "42" +:+ NL; "---" +:+ NL; NL +:+ NL]) /\
    exists head tail,
      echo = head +:+ "..." /\
      "abcdef" = head +:+ tail /\
      Z.of_nat (String.length head) = Z.max 0 (6 + -2).
Proof.
  destruct (handle_text_echo_bounds (-2) "abcdef" "42" [])
    as (echo & Hrun & _ & Hneg).
  exists echo. split; [exact Hrun|]. apply Hneg. lia.
Defined.

(** ** What the callback invokes *)

Lemma adds_lift {A} P (r : outcome A) : adds P (slift r).
Proof.
  intros s r' s' H. inversion H; subst. exists [].
  split; [by rewrite app_nil_r|]. by split.
Qed.

Lemma adds_bind {A B} P (m : M A) (k : A -> M B) :
  adds P m -> (forall a, adds P (k a)) -> adds P (sbind m k).
Proof.
  intros Hm Hk s r s' H. unfold sbind in H.
  destruct (m s) as [[a|e] s1] eqn:Hms.
  - destruct (Hm _ _ _ Hms) as (e1 & Hs1 & HP1 & Hq1).
    destruct (Hk a _ _ _ H) as (e2 & Hs' & HP2 & Hq2).
    exists (e1 ++ e2). split; [by rewrite Hs', Hs1, <- app_assoc|].
    split; [by apply List.Forall_app|].
    intros [-> ->]%app_eq_nil. rewrite Hq2, Hq1; done.
  - inversion H; subst.
    destruct (Hm _ _ _ Hms) as (e1 & Hs1 & HP1 & Hq1). by exists e1.
Qed.

Lemma adds_for_each {A} P (xs : list A) (body : A -> M unit) :
  (forall x, adds P (body x)) -> adds P (for_each xs body).
Proof.
  intros Hbody. induction xs as [|x xs IH]; cbn [for_each].
  - apply (adds_lift P (Ok tt)).
  - apply adds_bind; [apply Hbody|intros _; exact IH].
Qed.

Lemma adds_except P (m : M unit) :
  adds P m -> adds P (except_KeyError_pass m).
Proof.
  intros Hm s r s' H. unfold except_KeyError_pass in H.
  destruct (m s) as [[[]|e] s1] eqn:Hms.
  - inversion H; subst. eauto.
  - assert (s' = s1) as -> by (destruct e; by inversion H).
    destruct (Hm _ _ _ Hms) as (entries & ? & ? & ?). by exists entries.
Qed.

Lemma adds_display_step self reply :
  adds (display_entry self) (display_step self reply).
Proof.
  unfold display_step. apply adds_bind; [apply adds_lift|].
  intros contents. apply adds_for_each. intros content.
  unfold display_block.
  apply adds_bind; [apply adds_lift|intros display_data].
  apply adds_bind; [apply adds_lift|intros mime_types].
  apply adds_for_each. intros mime_type. unfold display_one.
  apply adds_except.
  destruct mime_type; try apply (adds_lift _ (Raise _)).
  destruct (_handle_display_data self !! s) as [handler|] eqn:Hh;
    [|apply (adds_lift _ (Raise _))].
  apply adds_bind; [apply adds_lift|intros payload].
  intros t r t' H. unfold call_display in H.
  destruct (handler payload (st_view t)) as [r0 v]. inversion H; subst.
  eexists. split; [reflexivity|]. split; [|done].
  constructor; [|constructor]. exists s, payload. by rewrite Hh.
Qed.

Lemma adds_result_block self code result :
  adds (result_entry self code) (result_block self code result).
Proof.
  unfold result_block.
  apply adds_bind; [apply adds_lift|intros data].
  apply adds_bind; [apply adds_lift|intros mime_types].
  apply adds_for_each. intros mime_type. unfold result_one.
  destruct mime_type;
    try apply (adds_lift _ (Raise _)); try apply (adds_lift _ (Ok tt)).
  destruct (_run_commands self !! s) as [handler|] eqn:Hh;
    [|apply (adds_lift _ (Ok tt))].
  apply adds_except.
  apply adds_bind; [apply adds_lift|intros payload].
  intros t r t' H. unfold call_result in H.
  destruct (handler code payload (st_view t)) as [r0 v]. inversion H; subst.
  eexists. split; [reflexivity|]. split; [|done].
  constructor; [|constructor]. exists s, payload. by rewrite Hh.
Qed.

(** X11.  Whatever the stream and however the callback ends, the
    invocations it has made are: first invocations of display handlers,
    each under a MIME key present in [_handle_display_data]; then
    invocations of result handlers, each under a key present in
    [_run_commands] and with the code of this [execute_code] call.  No
    display handler runs after a result handler, and a result handler
    runs only when the stream holds exactly one [execute_result] block. *)
Theorem callback_invocations
    (self : KernelConnection) (code : string) (reply : list json)
    (s s' : hstate) (r : outcome unit) :
  callback self code reply s = (r, s') ->
  exists displays results,
    st_calls s' = st_calls s ++ displays ++ results /\
    List.Forall (display_entry self) displays /\
    List.Forall (result_entry self code) results /\
    (results <> [] ->
     exists result,
       extract_content reply MSG_TYPE_EXECUTE_RESULT = Ok [result]).
Proof.
  unfold callback, sbind. intros H.
  destruct (display_step self reply s) as [[[]|e] s1] eqn:Hd.
  - destruct (adds_display_step _ _ _ _ _ Hd) as (ds & Hs1 & Hds & _).
    unfold result_step, sbind, slift in H.
    destruct (extract_content reply MSG_TYPE_EXECUTE_RESULT)
      as [[|result [|]]|]; try (inversion H; subst; exists ds, [];
        rewrite app_nil_r; by repeat split).
    destruct (adds_result_block _ _ _ _ _ _ H) as (rs & Hs' & Hrs & _).
    exists ds, rs. rewrite Hs', Hs1, <- app_assoc. repeat split; eauto.
  - inversion H; subst.
    destruct (adds_display_step _ _ _ _ _ Hd) as (ds & Hs1 & Hds & _).
    exists ds, []. rewrite app_nil_r. by repeat split.
Qed.

Lemma callback_invocations_witness :
  exists displays results,
    [(DisplayCall "text/a" (JNum 1), @Raise unit TypeError)] =
      [] ++ displays ++ results /\
    List.Forall (display_entry (connection_ab TypeError)) displays /\
    List.Forall (result_entry (connection_ab TypeError) "1+1") results.
Proof.
  destruct (callback_invocations (connection_ab TypeError) "1+1"
              stream_no_result empty_state
              {| st_view := [];
                 st_calls :=
                   [(DisplayCall "text/a" (JNum 1), Raise TypeError)] |}
              (Raise TypeError) eq_refl)
    as (ds & rs & H1 & H2 & H3 & _).
  by exists ds, rs.
Defined.

(** X12.  MIME keys without a registered handler are ignored in silence.
    On a stream of well-formed envelopes with at most one execute result,
    if no key of a display payload is in [_handle_display_data] and no
    key of the result payload is in [_run_commands], the callback returns
    normally and leaves the view and the record exactly as they were. *)
Theorem callback_ignores_unregistered
    (self : KernelConnection) (code : string) (reply : list json)
    (s : hstate) :
  Forall (fun message => well_formed message = true) reply ->
  (length (contents_of reply MSG_TYPE_EXECUTE_RESULT) <= 1)%nat ->
  matched_display_calls self reply = [] ->
  matched_result_calls self code reply = [] ->
  callback self code reply s = (Ok tt, s).
Proof.
  intros Hwf Hlen Hd Hr.
  destruct (display_step_ok self reply s Hwf) as [s1 H1].
  { rewrite Hd. by intros c v r []. }
  destruct (result_step_ok self code reply s1 Hwf Hlen) as [s2 H2].
  { rewrite Hr. by intros c v r []. }
  assert (s1 = s) as ->.
  { destruct (adds_display_step _ _ _ _ _ H1) as (ds & Hs1 & _ & Hq).
    apply Hq. apply display_step_invoked in H1.
    rewrite Hd, app_nil_r in H1. unfold invoked in H1.
    rewrite Hs1, map_app in H1.
    apply (f_equal (@length _)) in H1.
    rewrite length_app, !length_map in H1.
    destruct ds; [done|cbn in H1; lia]. }
  assert (s2 = s) as ->.
  { pose proof H2 as H2'. unfold result_step, sbind, slift in H2'.
    destruct (extract_content reply MSG_TYPE_EXECUTE_RESULT)
      as [[|result [|]]|]; try by inversion H2'.
    destruct (adds_result_block _ _ _ _ _ _ H2') as (rs & Hs2 & _ & Hq).
    apply Hq. apply result_step_invoked in H2.
    rewrite Hr, app_nil_r in H2. unfold invoked in H2.
    rewrite Hs2, map_app in H2.
    apply (f_equal (@length _)) in H2.
    rewrite length_app, !length_map in H2.
    destruct rs; [done|cbn in H2; lia]. }
  unfold callback, sbind. by rewrite H1.
Qed.

Lemma callback_ignores_unregistered_witness :
  callback (connection_ab TypeError) "1+1" stream_unknown
    {| st_view := ["before"]; st_calls := [] |}
  = (Ok tt, {| st_view := ["before"]; st_calls := [] |}).
Proof.
  apply callback_ignores_unregistered.
  - repeat constructor.
  - vm_compute. lia.
  - reflexivity.
  - reflexivity.
Defined.

(** ** The worker, further *)

Section WorkerMore.
Context {W : Type}.
Variable kernel : json -> connection.

Implicit Types (s : system W) (t : task W) (l : list (event W)) (w : W).

Lemma replay_snoc ts t w :
  replay kernel (ts ++ [t]) w =
  match _communicate kernel (task_message t) with
  | Ok reply => snd (task_callback t reply (replay kernel ts w))
  | Raise _ => replay kernel ts w
  end.
Proof. unfold replay. by rewrite fold_left_app. Qed.

Lemma world_replay_step w0 s s' :
  step kernel s s' ->
  dispatcher_invariant kernel s ->
  (exists finished,
     started (log s) = finished ++ current (worker s) /\
     world s = replay kernel finished w0) ->
  exists finished,
    started (log s') = finished ++ current (worker s') /\
    world s' = replay kernel finished w0.
Proof.
  intros Hstep (_ & _ & Hreply & _) (finished & Hstarted & Hworld).
  destruct Hstep as [t s|s s' Hrun].
  - exists finished. cbn. rewrite started_app. cbn.
    by rewrite app_nil_r.
  - unfold run_step in Hrun. destruct (worker s) as [|t|t reply] eqn:Hw.
    + destruct (message_queue s) as [|t rest]; [discriminate Hrun|].
      inversion Hrun; subst; clear Hrun. cbn in *.
      exists finished. rewrite started_app, Hstarted. cbn.
      by rewrite app_nil_r.
    + cbn in Hstarted.
      destruct (_communicate kernel (task_message t)) as [reply|err] eqn:Hc;
        inversion Hrun; subst; clear Hrun; cbn;
        rewrite started_app; cbn; rewrite app_nil_r.
      * by exists finished.
      * exists (finished ++ [t]). rewrite app_nil_r. split; [done|].
        by rewrite replay_snoc, Hc.
    + cbn in Hstarted.
      destruct (task_callback t reply (world s)) as [r w] eqn:Hcb.
      inversion Hrun; subst; clear Hrun. cbn.
      rewrite started_app. cbn. rewrite started_printed, !app_nil_r.
      exists (finished ++ [t]). split; [by rewrite app_nil_r|].
      by rewrite replay_snoc, Hreply, <- Hworld, Hcb.
Qed.

End WorkerMore.

(** X14.  The effect of the dispatcher on the world is that of the
    callbacks run one after the other in submission order.  In every
    state of the connection the world is the initial world transformed by
    the callbacks of the finished tasks, in the order submitted, each
    applied to the reply of its own exchange; the tasks whose exchange
    failed contribute nothing, and a callback that raises keeps the
    changes it made.  Once the worker has emptied a queue of [N] tasks
    the world is that replay of all [N]. *)
Theorem dispatcher_replays_callbacks
    {W : Type} (kernel : json -> connection) (w : W) :
  (forall s : system W,
     reachable kernel w s ->
     exists finished,
       started (log s) = finished ++ current (worker s) /\
       world s = replay kernel finished w) /\
  (forall (ts : list (task W)) n,
     (3 * length ts <= n)%nat ->
     world (run kernel n (submit_all ts (start w))) = replay kernel ts w).
Proof.
  assert (Hinv : forall s : system W,
            reachable kernel w s ->
            exists finished,
              started (log s) = finished ++ current (worker s) /\
              world s = replay kernel finished w).
  { induction 1 as [|s s' Hs IH Hstep]; [by exists []|].
    apply (world_replay_step kernel w s); [done| |done].
    by apply (invariant_reachable kernel w). }
  split; [exact Hinv|].
  intros ts n Hn.
  destruct (submit_all_spec ts (start w)) as (H1 & _ & H3 & _ & H5 & _).
  destruct (run_drains kernel ts (submit_all ts (start w)) n H1 H3 Hn)
    as (R1 & _ & _ & R4 & _).
  destruct (Hinv (run kernel n (submit_all ts (start w))))
    as (finished & Hstarted & Hworld).
  { apply reachable_run, reachable_submit_all, reachable_start. }
  rewrite R1, R4, H5 in Hstarted. cbn in Hstarted.
  rewrite app_nil_r in Hstarted. by subst.
Qed.

Lemma dispatcher_replays_callbacks_witness :
  world (run kernel_replying 9
           (submit_all [counting_task 1; raising_task 2; counting_task 3]
              (start 0%nat)))
  = replay kernel_replying
      [counting_task 1; raising_task 2; counting_task 3] 0%nat.
Proof.
  apply (proj2 (dispatcher_replays_callbacks kernel_replying 0%nat)).
  cbn. lia.
Defined.

(** X15.  [execute_code] from end to end: the task it queues carries an
    [execute_request] for the code and a callback bound to that code.
    When the worker has processed it, the state of the view is what
    [callback] makes of the reply stream of that request; when the
    exchange failed, the view is untouched. *)
Theorem execute_code_end_to_end
    (kernel : json -> connection) (self : KernelConnection)
    (msg_id now code : string) (w : hstate) :
  let request := execute_request (_kernel_id self) msg_id now code in
  let s := run kernel 3
             (_async_communicate (execute_code self msg_id now code)
                (start w)) in
  (forall reply,
     _communicate kernel request = Ok reply ->
     worker s = Idle /\ message_queue s = [] /\
     world s = snd (callback self code reply w)) /\
  (forall e,
     _communicate kernel request = Raise e ->
     worker s = Idle /\ message_queue s = [] /\ world s = w).
Proof.
  intros request s. subst s. split.
  - intros reply Hreply.
    cbn [run _async_communicate start message_queue app].
    unfold run_step at 1. cbn. fold request. rewrite Hreply.
    unfold run_step at 1. cbn.
    destruct (callback self code reply w) as [r w'].
    unfold run_step. cbn. by repeat split.
  - intros e He.
    cbn [run _async_communicate start message_queue app].
    unfold run_step at 1. cbn. fold request. rewrite He.
    unfold run_step. cbn. by repeat split.
Qed.

Lemma execute_code_end_to_end_witness :
  world (run (kernel_sending stream_no_result) 3
           (_async_communicate
              (execute_code (connection_ab KeyError)
                 "m1" "2017-01-01T00:00:00" "1+1")
              (start empty_state)))
  = snd (callback (connection_ab KeyError) "1+1" stream_no_result
           empty_state).
Proof.
  apply (proj1 (execute_code_end_to_end (kernel_sending stream_no_result)
                  (connection_ab KeyError)
                  "m1" "2017-01-01T00:00:00" "1+1" empty_state)
           stream_no_result).
  reflexivity.
Defined.

(** ** The output view in the editor *)

Lemma find_view_Some n (l : list Sublime.buffer) (i : nat) :
  Sublime.find_view n l = Some i ->
  exists b,
    l !! i = Some b /\ Sublime.name b = n /\
    forall j b', (j < i)%nat -> l !! j = Some b' -> Sublime.name b' <> n.
Proof.
  revert i. induction l as [|b l IH]; intros i H; [discriminate H|].
  cbn in H. destruct (String.eqb_spec (Sublime.name b) n) as [Hn|Hn].
  - inversion H; subst. exists b. repeat split. intros j b' Hj. lia.
  - destruct (Sublime.find_view n l) as [k|]; [|discriminate H].
    inversion H; subst.
    destruct (IH k eq_refl) as (b0 & Hb0 & Hname & Hfirst).
    exists b0. split; [exact Hb0|]. split; [exact Hname|].
    intros [|j] b' Hj Hb'; cbn in Hb'.
    + by inversion Hb'; subst.
    + apply (Hfirst j); [lia|exact Hb'].
Qed.

Lemma find_view_None n l :
  Sublime.find_view n l = None ->
  List.Forall (fun b => Sublime.name b <> n) l.
Proof.
  induction l as [|b l IH]; intros H; [constructor|].
  cbn in H. destruct (String.eqb_spec (Sublime.name b) n); [discriminate H|].
  destruct (Sublime.find_view n l); [discriminate H|].
  constructor; [done|by apply IH].
Qed.

Lemma find_view_names n l l' :
  map Sublime.name l = map Sublime.name l' ->
  Sublime.find_view n l = Sublime.find_view n l'.
Proof.
  revert l'. induction l as [|b l IH]; intros [|b' l'] H;
    try discriminate H; [reflexivity|].
  cbn in H. inversion H as [[Hb Hl]]. cbn. rewrite Hb.
  by rewrite (IH l' Hl).
Qed.

Lemma find_view_app n l b :
  Sublime.find_view n l = None ->
  Sublime.find_view n (l ++ [b]) =
  if String.eqb (Sublime.name b) n then Some (length l) else None.
Proof.
  induction l as [|b0 l IH]; intros H; cbn.
  - by destruct (String.eqb (Sublime.name b) n).
  - cbn in H. destruct (String.eqb (Sublime.name b0) n); [discriminate H|].
    destruct (Sublime.find_view n l); [discriminate H|].
    rewrite IH by reflexivity.
    by destruct (String.eqb (Sublime.name b) n).
Qed.

Lemma names_alter f (i : nat) (l : list Sublime.buffer) :
  (forall b, Sublime.name (f b) = Sublime.name b) ->
  map Sublime.name (alter f i l) = map Sublime.name l.
Proof.
  intros Hf. revert i. induction l as [|b l IH]; intros [|i]; cbn;
    by rewrite ?Hf, ?IH.
Qed.

Lemma alter_insert (f : Sublime.buffer -> Sublime.buffer) (i : nat)
    (l : list Sublime.buffer) b :
  l !! i = Some b -> alter f i l = <[i := f b]> l.
Proof.
  revert i. induction l as [|b0 l IH]; intros [|i] H; try discriminate H.
  - by inversion H.
  - cbn in *. by rewrite (IH i H).
Qed.

(** X16.  [get_view] returns a view that bears the name of the
    connection, and the first such view of the window.  It leaves the
    window as it is when a view of that name exists; otherwise it adds
    one view at the end, of that name, empty and writable, and makes it
    the active one.  Asked again, it returns the same view and changes
    nothing: no second view is made. *)
Theorem get_view_finds_or_creates
    (self : KernelConnection) (w w' : Sublime.window) (i : nat) :
  Sublime.get_view self w = (i, w') ->
  (exists b,
     Sublime.views w' !! i = Some b /\
     Sublime.name b = Sublime.view_name self) /\
  (forall j b,
     (j < i)%nat -> Sublime.views w' !! j = Some b ->
     Sublime.name b <> Sublime.view_name self) /\
  (w' = w \/
   List.Forall (fun b => Sublime.name b <> Sublime.view_name self)
     (Sublime.views w) /\
   i = length (Sublime.views w) /\
   Sublime.active w' = Some i /\
   Sublime.views w' =
     Sublime.views w ++
     [Sublime.set_name (Sublime.view_name self) Sublime.blank]) /\
  Sublime.get_view self w' = (i, w').
Proof.
  unfold Sublime.get_view.
  destruct (Sublime.find_view (Sublime.view_name self) (Sublime.views w))
    as [k|] eqn:Hfind.
  - intros H. inversion H; subst.
    destruct (find_view_Some _ _ _ Hfind) as (b & Hb & Hname & Hfirst).
    split; [eauto|]. split; [exact Hfirst|]. split; [by left|].
    by rewrite Hfind.
  - cbn. intros H. inversion H; subst; clear H.
    pose proof (find_view_None _ _ Hfind) as Hnone.
    assert (Hviews :
      alter (Sublime.set_name (Sublime.view_name self))
        (length (Sublime.views w)) (Sublime.views w ++ [Sublime.blank]) =
      Sublime.views w ++
      [Sublime.set_name (Sublime.view_name self) Sublime.blank]).
    { rewrite alter_app_r_alt by lia. by rewrite Nat.sub_diag. }
    cbn. rewrite Hviews. split; [|split; [|split]].
    + exists (Sublime.set_name (Sublime.view_name self) Sublime.blank).
      split; [by rewrite list_lookup_middle|reflexivity].
    + intros j b Hj Hb. rewrite lookup_app_l in Hb by done.
      rewrite List.Forall_forall in Hnone. apply Hnone.
      apply list_elem_of_In. by eapply list_elem_of_lookup_2.
    + right. by repeat split.
    + rewrite find_view_app by done. cbn. by rewrite String.eqb_refl.
Qed.

Lemma get_view_finds_or_creates_witness :
  Sublime.get_view (connection_ab KeyError)
    (snd (Sublime.get_view (connection_ab KeyError) window_other))
  = (1%nat, snd (Sublime.get_view (connection_ab KeyError) window_other)).
Proof.
  apply (get_view_finds_or_creates (connection_ab KeyError) window_other).
  reflexivity.
Defined.

Lemma get_view_found self w i w1 :
  Sublime.get_view self w = (i, w1) ->
  Sublime.find_view (Sublime.view_name self) (Sublime.views w1) = Some i /\
  (Sublime.find_view (Sublime.view_name self) (Sublime.views w) = Some i
     /\ w1 = w \/
   Sublime.find_view (Sublime.view_name self) (Sublime.views w) = None /\
   i = length (Sublime.views w) /\
   Sublime.views w1 =
     Sublime.views w ++
     [Sublime.set_name (Sublime.view_name self) Sublime.blank]).
Proof.
  unfold Sublime.get_view.
  destruct (Sublime.find_view (Sublime.view_name self) (Sublime.views w))
    as [k|] eqn:Hfind; cbn -[Sublime.view_name];
    intros H; inversion H; subst; clear H.
  - split; [exact Hfind|]. by left.
  - assert (Hviews :
      alter (Sublime.set_name (Sublime.view_name self))
        (length (Sublime.views w)) (Sublime.views w ++ [Sublime.blank]) =
      Sublime.views w ++
      [Sublime.set_name (Sublime.view_name self) Sublime.blank]).
    { rewrite alter_app_r_alt by lia. by rewrite Nat.sub_diag. }
    unfold Sublime.on_view. cbn [Sublime.views]. rewrite Hviews.
    split; [|right; by repeat split].
    rewrite find_view_app by done.
    cbn -[Sublime.view_name]. by rewrite String.eqb_refl.
Qed.

Lemma names_insert (l : list Sublime.buffer) (i : nat) b b' :
  l !! i = Some b -> Sublime.name b' = Sublime.name b ->
  map Sublime.name (<[i := b']> l) = map Sublime.name l.
Proof.
  revert i. induction l as [|b0 l IH]; intros [|i] H Hn; try discriminate H.
  - inversion H; subst. cbn. by rewrite Hn.
  - cbn. f_equal. by apply IH.
Qed.

(** The views of the window after a write. *)
Lemma write_to_view_views self text w i w1 :
  Sublime.get_view self w = (i, w1) ->
  exists b,
    Sublime.views w1 !! i = Some b /\
    Sublime.name b = Sublime.view_name self /\
    Sublime.views (Sublime._write_to_view self text w) =
      <[i := {| Sublime.name := Sublime.view_name self;
                Sublime.text := Sublime.text b +:+ text;
                Sublime.read_only := true;
                Sublime.scratch := true;
                Sublime.word_wrap := Some "false" |}]> (Sublime.views w1) /\
    Sublime.active (Sublime._write_to_view self text w) = Some i.
Proof.
  intros Hget.
  destruct (get_view_found _ _ _ _ Hget) as [Hfind _].
  destruct (find_view_Some _ _ _ Hfind) as (b & Hb & Hname & _).
  exists b. split; [exact Hb|]. split; [exact Hname|].
  unfold Sublime._write_to_view, Sublime.activate_view. rewrite Hget.
  set (wa := Sublime.on_view (Sublime.set_word_wrap "false") i
               (Sublime.on_view (Sublime.set_scratch true) i
                  (Sublime.focus_view i w1))).
  assert (Hwa : Sublime.get_view self wa = (i, wa)).
  { unfold Sublime.get_view.
    replace (Sublime.find_view (Sublime.view_name self) (Sublime.views wa))
      with (Some i); [reflexivity|].
    rewrite <- Hfind. apply find_view_names. unfold wa. cbn.
    by rewrite !names_alter. }
  rewrite Hwa. split; [|reflexivity].
  unfold wa. cbn. rewrite !list_alter_alter_eq.
  rewrite (alter_insert _ _ _ _ Hb). f_equal.
  destruct b as [n t ro sc ww]. cbn in *. by subst.
Qed.

(** X17.  A write lands in the view of the connection and nowhere else.
    After [_write_to_view], the view [get_view] designates bears the name
    of the connection, holds its former text followed by the text
    written (also when it had been left read-only), is read-only and
    scratch with word wrap off, and is the active view; every other view
    of the window is as it was, and the window has gained no view beyond
    the one [get_view] may have made. *)
Theorem write_to_view_effect
    (self : KernelConnection) (text : string) (w w1 : Sublime.window)
    (i : nat) :
  Sublime.get_view self w = (i, w1) ->
  let w' := Sublime._write_to_view self text w in
  (exists b,
     Sublime.views w1 !! i = Some b /\
     Sublime.views w' !! i =
       Some {| Sublime.name := Sublime.view_name self;
               Sublime.text := Sublime.text b +:+ text;
               Sublime.read_only := true;
               Sublime.scratch := true;
               Sublime.word_wrap := Some "false" |}) /\
  Sublime.active w' = Some i /\
  length (Sublime.views w') = length (Sublime.views w1) /\
  (forall j, j <> i -> Sublime.views w' !! j = Sublime.views w1 !! j) /\
  (forall j b,
     j <> i -> Sublime.views w !! j = Some b ->
     Sublime.views w' !! j = Some b).
Proof.
  intros Hget w'.
  destruct (write_to_view_views self text w i w1 Hget)
    as (b & Hb & _ & Hviews & Hactive).
  subst w'. rewrite Hviews, Hactive. split; [|split; [|split; [|split]]].
  - exists b. split; [exact Hb|].
    apply list_lookup_insert_eq. by eapply lookup_lt_Some.
  - reflexivity.
  - apply length_insert.
  - intros j Hj. by apply list_lookup_insert_ne.
  - intros j b0 Hj Hb0. rewrite list_lookup_insert_ne by done.
    destruct (get_view_found _ _ _ _ Hget) as [_ [[_ ->]|(_ & _ & ->)]];
      [exact Hb0|by apply lookup_app_l_Some].
Qed.

Lemma write_to_view_effect_witness :
  let w' := Sublime._write_to_view (connection_ab KeyError) "out" window_other in
  Sublime.views w' !! 0%nat = Sublime.views window_other !! 0%nat /\
  Sublime.active w' = Some 1%nat /\
  length (Sublime.views w') = 2%nat.
Proof.
  intros w'.
  destruct (write_to_view_effect (connection_ab KeyError) "out" window_other
              (snd (Sublime.get_view (connection_ab KeyError) window_other))
              1%nat eq_refl)
    as (_ & Hactive & Hlen & Hother & _).
  split; [|split].
  - etrans; [apply (Hother 0%nat); lia|reflexivity].
  - exact Hactive.
  - exact Hlen.
Defined.

Lemma string_app_nil_r (a : string) : a +:+ EmptyString = a.
Proof.
  induction a as [|c a IH]; [done|].
  change (String c (a +:+ EmptyString) = String c a). by rewrite IH.
Qed.

Lemma string_app_assoc (a b c : string) : (a +:+ b) +:+ c = a +:+ (b +:+ c).
Proof.
  induction a as [|x a IH]; [done|].
  change (String x ((a +:+ b) +:+ c) = String x (a +:+ (b +:+ c))).
  by rewrite IH.
Qed.

Lemma flatten_snoc (v : view) (t : string) :
  flatten (v ++ [t]) = flatten v +:+ t.
Proof.
  induction v as [|x v IH]; cbn.
  - apply string_app_nil_r.
  - fold (flatten (v ++ [t])). fold (flatten v).
    by rewrite IH, string_app_assoc.
Qed.

Lemma find_view_app_other n (l : list Sublime.buffer) b :
  Sublime.name b <> n ->
  Sublime.find_view n (l ++ [b]) = Sublime.find_view n l.
Proof.
  intros Hb. induction l as [|b0 l IH]; cbn.
  - by destruct (String.eqb_spec (Sublime.name b) n).
  - by rewrite IH.
Qed.

Lemma shown_write self text w :
  Sublime.shown self (Sublime._write_to_view self text w) =
  Sublime.shown self w +:+ text.
Proof.
  destruct (Sublime.get_view self w) as [i w1] eqn:Hget.
  destruct (write_to_view_views self text w i w1 Hget)
    as (b & Hb & Hname & Hviews & _).
  destruct (get_view_found _ _ _ _ Hget) as [Hfind Hcases].
  unfold Sublime.shown at 1. rewrite Hviews.
  rewrite (find_view_names _ _ (Sublime.views w1)), Hfind
    by (by apply (names_insert _ _ b)).
  rewrite list_lookup_insert_eq by (by eapply lookup_lt_Some).
  cbn [Sublime.text]. f_equal.
  unfold Sublime.shown.
  destruct Hcases as [[Hw ->]|(Hw & -> & Hw1)].
  - by rewrite Hw, Hb.
  - rewrite Hw. rewrite Hw1, list_lookup_middle in Hb by done.
    by inversion Hb.
Qed.

(** X18.  The sequence of texts used as the view in the properties of
    the handlers is a sound picture of the editor: a window whose output
    view shows the texts put end to end keeps doing so after a write,
    and [_handle_text] run on the window ends as [_handle_text] run on
    the sequence does, the view showing the resulting texts, whatever
    else the window holds and whether or not the view existed. *)
Theorem handle_text_refines
    (self : KernelConnection) (code : string) (result : json)
    (w : Sublime.window) (v : view) :
  Sublime.shown self w = flatten v ->
  (forall text,
     Sublime.shown self (Sublime._write_to_view self text w) =
     flatten (_write_to_view text v)) /\
  fst (Sublime._handle_text self code result w) =
    fst (_handle_text (_max_shown_input_length self) code result v) /\
  Sublime.shown self (snd (Sublime._handle_text self code result w)) =
    flatten (snd (_handle_text (_max_shown_input_length self) code result v)).
Proof.
  intros Hshown. split.
  - intros text. unfold _write_to_view.
    by rewrite shown_write, flatten_snoc, Hshown.
  - unfold Sublime._handle_text, _handle_text.
    generalize
      [JStr "input:";
       JStr (if Z.of_nat (String.length code) >? _max_shown_input_length self
             then slice_to code (_max_shown_input_length self) +:+ "..."
             else code);
       JStr "output:"; result; JStr "---"; JStr NL].
    intros lines. revert w v Hshown.
    induction lines as [|line lines IH]; intros w v Hshown; [by split|].
    cbn [Sublime.write_lines write_lines].
    destruct (str_add line NL) as [characters|e]; [|by split].
    apply IH. unfold _write_to_view.
    by rewrite shown_write, flatten_snoc, Hshown.
Qed.

Lemma handle_text_refines_witness :
  Sublime.shown (connection_ab KeyError)
    (snd (Sublime._handle_text (connection_ab KeyError) "abcdef" (JStr "42")
            window_other)) =
  flatten (snd (_handle_text 5 "abcdef" (JStr "42") [])).
Proof.
  apply (handle_text_refines (connection_ab KeyError) "abcdef" (JStr "42")
           window_other []).
  reflexivity.
Defined.

(** X19.  Connections do not write into each other's view: when the view
    names of two connections differ, a write of the one leaves what the
    view of the other shows as it was. *)
Theorem write_to_view_other_connection
    (self other : KernelConnection) (text : string) (w : Sublime.window) :
  Sublime.view_name other <> Sublime.view_name self ->
  Sublime.shown other (Sublime._write_to_view self text w) =
  Sublime.shown other w.
Proof.
  intros Hne.
  destruct (Sublime.get_view self w) as [i w1] eqn:Hget.
  destruct (write_to_view_views self text w i w1 Hget)
    as (b & Hb & Hname & Hviews & _).
  destruct (get_view_found _ _ _ _ Hget) as [_ Hcases].
  unfold Sublime.shown. rewrite Hviews.
  rewrite (find_view_names _ _ (Sublime.views w1))
    by (by apply (names_insert _ _ b)).
  assert (Hsame : Sublime.find_view (Sublime.view_name other)
                    (Sublime.views w1) =
                  Sublime.find_view (Sublime.view_name other)
                    (Sublime.views w)).
  { destruct Hcases as [[_ ->]|(_ & _ & ->)]; [reflexivity|].
    apply find_view_app_other. cbn. congruence. }
  rewrite Hsame.
  destruct (Sublime.find_view (Sublime.view_name other) (Sublime.views w))
    as [j|] eqn:Hj; [|reflexivity].
  destruct (find_view_Some _ _ _ Hj) as (bj & Hbj & Hnj & _).
  assert (Hbj1 : Sublime.views w1 !! j = Some bj).
  { destruct Hcases as [[_ ->]|(_ & _ & ->)];
      [exact Hbj|by apply lookup_app_l_Some]. }
  assert (j <> i) by (intros ->; congruence).
  rewrite list_lookup_insert_ne by done. by rewrite Hbj1, Hbj.
Qed.

Lemma write_to_view_other_connection_witness :
  Sublime.shown (connection_ab KeyError)
    (Sublime._write_to_view
       (__init__ "julia" "k2" 5 platform_saving)
       "out"
       (Sublime._write_to_view (connection_ab KeyError) "mine" window_other))
  = Sublime.shown (connection_ab KeyError)
      (Sublime._write_to_view (connection_ab KeyError) "mine" window_other).
Proof.
  apply write_to_view_other_connection.
  vm_compute. discriminate.
Defined.

(** ** The registries [__init__] installs *)

Lemma dict_get_keys fields k payload :
  dict_get fields k = Some payload -> k ∈ dict_keys fields.
Proof.
  unfold dict_keys. rewrite elem_of_remove_dups.
  induction fields as [|[k' v] fields IH]; [done|]. cbn.
  destruct (String.eqb_spec k' k) as [->|Hne]; intros H.
  - by left.
  - right. by apply IH.
Qed.

Lemma dict_keys_get fields k :
  k ∈ dict_keys fields -> is_Some (dict_get fields k).
Proof.
  unfold dict_keys. rewrite elem_of_remove_dups.
  induction fields as [|[k' v] fields IH]; cbn; [by intros ?%elem_of_nil|].
  destruct (String.eqb_spec k' k) as [->|Hne]; [eauto|].
  intros [?|?]%elem_of_cons; [congruence|by apply IH].
Qed.

Lemma text_plain_loop lang kernel_id L platform code fields r ks s :
  dict_get fields "text/plain" = Some (JStr r) ->
  NoDup ks ->
  for_each (map JStr ks)
    (result_one (__init__ lang kernel_id L platform) code
       (JObj fields)) s =
  if decide ("text/plain" ∈ ks)
  then (Ok tt,
        {| st_view := snd (_handle_text L code (JStr r) (st_view s));
           st_calls := st_calls s ++
             [(ResultCall "text/plain" code (JStr r), Ok tt)] |})
  else (Ok tt, s).
Proof.
  intros Hr Hks. revert s.
  induction Hks as [|k ks Hk Hks IH]; intros s; [reflexivity|].
  cbn [map for_each]. unfold sbind, result_one at 1.
  cbn [_run_commands __init__].
  destruct (decide (k = "text/plain")) as [->|Hne].
  - rewrite lookup_singleton_eq.
    unfold except_KeyError_pass, sbind, slift, subscript, call_result.
    rewrite Hr.
    assert (Hrun : fst (_handle_text L code (JStr r) (st_view s)) = Ok tt).
    { unfold _handle_text.
      match goal with |- context [write_lines ?l _] =>
        change l with (map JStr
          ["input:";
           if Z.of_nat (String.length code) >? L
           then slice_to code L +:+ "..." else code;
           "output:"; r; "---"; NL]) end.
      by rewrite write_lines_strs. }
    destruct (_handle_text L code (JStr r) (st_view s)) as [r0 v].
    cbn in Hrun. subst r0. rewrite IH.
    rewrite decide_False by done. rewrite decide_True by (by left).
    reflexivity.
  - rewrite lookup_singleton_ne by done. cbn [sret]. rewrite IH.
    destruct (decide ("text/plain" ∈ ks)) as [Hin|Hin].
    + rewrite decide_True by (by right). reflexivity.
    + rewrite decide_False; [reflexivity|].
      intros [?|?]%elem_of_cons; congruence.
Qed.

(** X20.  With the registries [__init__] installs, an execute result is
    rendered from its [text/plain] payload alone.  When the display step
    has completed and the stream holds one [execute_result] block whose
    payload is a dict: if the payload has a [str] under [text/plain],
    the callback runs [_handle_text] on it exactly once, whatever other
    MIME keys the payload carries and wherever the key stands among
    them; if the payload has no [text/plain], nothing is written. *)
Theorem init_renders_text_plain
    (lang kernel_id : string) (L : Z) (platform : png_platform)
    (code : string) (reply : list json)
    (content fields : list (string * json)) (s s1 : hstate) :
  let self := __init__ lang kernel_id L platform in
  display_step self reply s = (Ok tt, s1) ->
  extract_content reply MSG_TYPE_EXECUTE_RESULT = Ok [JObj content] ->
  dict_get content "data" = Some (JObj fields) ->
  (forall r,
     dict_get fields "text/plain" = Some (JStr r) ->
     callback self code reply s =
     (Ok tt,
      {| st_view := snd (_handle_text L code (JStr r) (st_view s1));
         st_calls := st_calls s1 ++
           [(ResultCall "text/plain" code (JStr r), Ok tt)] |})) /\
  (dict_get fields "text/plain" = None ->
   callback self code reply s = (Ok tt, s1)).
Proof.
  intros self Hdisplay Hresult Hdata.
  assert (Hcb : callback self code reply s =
                for_each (map JStr (dict_keys fields))
                  (result_one self code (JObj fields)) s1).
  { unfold callback, sbind. rewrite Hdisplay.
    unfold result_step, sbind, slift. rewrite Hresult.
    unfold result_block, sbind, slift.
    by rewrite extract_data_dict, Hdata. }
  rewrite Hcb. split.
  - intros r Hr. unfold self.
    rewrite (text_plain_loop _ _ _ _ _ _ r) by
      (done || apply NoDup_remove_dups).
    rewrite decide_True; [reflexivity|]. by eapply dict_get_keys.
  - intros Hnone. clear Hcb.
    assert (Hskip : forall ks t,
              "text/plain" ∉ ks ->
              for_each (map JStr ks) (result_one self code (JObj fields)) t
              = (Ok tt, t)).
    { induction ks as [|k ks IH]; intros t Hks; [reflexivity|].
      cbn [map for_each]. unfold sbind, result_one at 1.
      cbn [_run_commands self __init__].
      rewrite lookup_singleton_ne
        by (intros <-; apply Hks; by left).
      cbn [sret]. apply IH. intros Hin. apply Hks. by right. }
    apply Hskip. intros Hin. apply dict_keys_get in Hin as [x Hx].
    congruence.
Qed.

Lemma init_renders_text_plain_witness :
  callback (__init__ "python" "k1" 5 platform_posix)
    "abcdef"
    [result_frame [("text/html", JStr "<b>42</b>"); ("text/plain", JStr "42")];
     frame "execute_reply" "execute_reply" (JObj [])]
    empty_state
  = (Ok tt,
     {| st_view := snd (_handle_text 5 "abcdef" (JStr "42") []);
        st_calls := [] ++
          [(ResultCall "text/plain" "abcdef" (JStr "42"), Ok tt)] |}).
Proof.
  apply (proj1 (init_renders_text_plain "python" "k1" 5
                  platform_posix "abcdef"
                  [result_frame [("text/html", JStr "<b>42</b>");
                                 ("text/plain", JStr "42")];
                   frame "execute_reply" "execute_reply" (JObj [])]
                  [("data", JObj [("text/html", JStr "<b>42</b>");
                                  ("text/plain", JStr "42")])]
                  [("text/html", JStr "<b>42</b>"); ("text/plain", JStr "42")]
                  empty_state empty_state eq_refl eq_refl eq_refl));
    reflexivity.
Defined.

Lemma image_png_loop lang kernel_id L platform fields p ks s :
  dict_get fields "image/png" = Some p ->
  NoDup ks ->
  for_each (map JStr ks)
    (display_one (__init__ lang kernel_id L platform) (JObj fields)) s =
  if decide ("image/png" ∈ ks)
  then except_KeyError_pass
         (call_display "image/png" (_handle_png_display_data platform) p) s
  else (Ok tt, s).
Proof.
  intros Hp Hks. revert s.
  induction Hks as [|k ks Hk Hks IH]; intros s; [reflexivity|].
  cbn [map for_each]. unfold sbind, display_one at 1.
  cbn [_handle_display_data __init__].
  destruct (decide (k = "image/png")) as [->|Hne].
  - rewrite lookup_singleton_eq. rewrite decide_True by (by left).
    unfold sbind at 1, slift, subscript. rewrite Hp.
    destruct (except_KeyError_pass _ s) as [[[]|e] s'] eqn:Hcall;
      [|reflexivity].
    rewrite IH. by rewrite decide_False.
  - rewrite lookup_singleton_ne by done.
    unfold except_KeyError_pass at 1, sraise. rewrite IH.
    destruct (decide ("image/png" ∈ ks)) as [Hin|Hin].
    + rewrite decide_True by (by right). reflexivity.
    + rewrite decide_False; [reflexivity|].
      intros [?|?]%elem_of_cons; congruence.
Qed.

(** X21.  With the registries [__init__] installs, a [display_data]
    block is handled through its [image/png] payload alone, wherever the
    key stands in the payload.  Let the stream hold one such block, with
    a dict payload that has an [image/png] entry.  If the payload
    decodes, the temporary file opens, the bytes are written and the file
    closes, the display step writes the one line that names the file.  If
    the decoding, the opening or the write raises, the callback ends with
    an exception (that one, or the one of the closing of the file if it
    raises too), the view is left as it was and the execute result of
    the stream is not rendered; where [TemporaryFile] takes no [delete]
    argument this is the fate of every figure, with [TypeError].  If only
    the closing raises, the line has been written and the callback ends
    with the exception of the closing, the result not rendered.  (The
    exception is any but [KeyError], which the loop passes over.) *)
Theorem init_saves_png
    (lang kernel_id : string) (L : Z) (platform : png_platform)
    (code : string) (reply : list json)
    (content fields : list (string * json)) (p : json) (s : hstate) :
  let self := __init__ lang kernel_id L platform in
  extract_content reply MSG_TYPE_DISPLAY_DATA = Ok [JObj content] ->
  dict_get content "data" = Some (JObj fields) ->
  dict_get fields "image/png" = Some p ->
  (forall decoded out_file,
     b64decode platform p = Ok decoded ->
     temporary_file platform = Ok out_file ->
     file_write platform decoded = None ->
     file_close platform = None ->
     display_step self reply s =
     (Ok tt,
      {| st_view := st_view s ++
           ["Saved the figure to '" +:+ out_file +:+ "'." +:+ NL];
         st_calls := st_calls s ++ [(DisplayCall "image/png" p, Ok tt)] |})) /\
  (forall e,
     b64decode platform p = Raise e \/
     (exists decoded,
        b64decode platform p = Ok decoded /\
        (temporary_file platform = Raise e \/
         (exists out_file, temporary_file platform = Ok out_file) /\
         (exists e0,
            file_write platform decoded = Some e0 /\
            (file_close platform = None /\ e = e0 \/
             file_close platform = Some e)))) ->
     e <> KeyError ->
     callback self code reply s =
     (Raise e,
      {| st_view := st_view s;
         st_calls := st_calls s ++ [(DisplayCall "image/png" p, Raise e)] |})) /\
  (forall decoded out_file e,
     b64decode platform p = Ok decoded ->
     temporary_file platform = Ok out_file ->
     file_write platform decoded = None ->
     file_close platform = Some e ->
     e <> KeyError ->
     callback self code reply s =
     (Raise e,
      {| st_view := st_view s ++
           ["Saved the figure to '" +:+ out_file +:+ "'." +:+ NL];
         st_calls := st_calls s ++ [(DisplayCall "image/png" p, Raise e)] |})).
Proof.
  intros self Hcontent Hdata Hp.
  assert (Hstep : display_step self reply s =
                  except_KeyError_pass
                    (call_display "image/png"
                       (_handle_png_display_data platform) p) s).
  { assert (Hblock : display_block self (JObj content) s =
                     except_KeyError_pass
                       (call_display "image/png"
                          (_handle_png_display_data platform) p) s).
    { unfold display_block, sbind, slift.
      rewrite extract_data_dict, Hdata. cbn [default id py_iter].
      unfold self.
      rewrite (image_png_loop _ _ _ _ _ p) by
        (done || apply NoDup_remove_dups).
      by rewrite decide_True by (by eapply dict_get_keys). }
    unfold display_step, sbind, slift. rewrite Hcontent.
    cbn [for_each]. unfold sbind. rewrite Hblock.
    by destruct (except_KeyError_pass _ s) as [[[]|e] s']. }
  split; [|split].
  - intros decoded out_file Hd Ht Hw Hc. rewrite Hstep.
    unfold except_KeyError_pass, call_display, _handle_png_display_data.
    by rewrite Hd, Ht, Hw, Hc.
  - intros e Hfail Hne.
    assert (Hhandler : _handle_png_display_data platform p (st_view s)
                       = (Raise e, st_view s)).
    { unfold _handle_png_display_data.
      destruct Hfail
        as [->|(decoded & -> & [->|[[out_file ->] (e0 & -> & Hc)]])];
        [reflexivity| reflexivity |].
      by destruct Hc as [[-> ->]| ->]. }
    unfold callback, sbind. rewrite Hstep.
    unfold except_KeyError_pass, call_display. rewrite Hhandler.
    by destruct e.
  - intros decoded out_file e Hd Ht Hw Hc Hne.
    unfold callback, sbind. rewrite Hstep.
    unfold except_KeyError_pass, call_display, _handle_png_display_data.
    rewrite Hd, Ht, Hw, Hc. cbn [with_exit].
    by destruct e.
Qed.

Lemma init_saves_png_witness :
  display_step (__init__ "python" "k1" 5 platform_saving)
    [display_frame [("text/plain", JStr "<Figure>"); ("image/png", JStr "a")];
     result_frame [("text/plain", JStr "42")];
     frame "execute_reply" "execute_reply" (JObj [])]
    empty_state
  = (Ok tt,
     {| st_view := [] ++ ["Saved the figure to '" +:+ "fig.png" +:+ "'." +:+ NL];
        st_calls := [] ++ [(DisplayCall "image/png" (JStr "a"), Ok tt)] |}) /\
  callback (__init__ "python" "k1" 5 platform_posix) "plot()"
    [display_frame [("text/plain", JStr "<Figure>"); ("image/png", JStr "a")];
     result_frame [("text/plain", JStr "42")];
     frame "execute_reply" "execute_reply" (JObj [])]
    empty_state
  = (Raise TypeError,
     {| st_view := [];
        st_calls := [] ++
          [(DisplayCall "image/png" (JStr "a"), Raise TypeError)] |}) /\
  callback (__init__ "python" "k1" 5 platform_disk_full) "plot()"
    [display_frame [("text/plain", JStr "<Figure>"); ("image/png", JStr "a")];
     result_frame [("text/plain", JStr "42")];
     frame "execute_reply" "execute_reply" (JObj [])]
    empty_state
  = (Raise (OtherError "OSError"),
     {| st_view := [] ++ ["Saved the figure to '" +:+ "fig.png" +:+ "'." +:+ NL];
        st_calls := [] ++
          [(DisplayCall "image/png" (JStr "a"),
            Raise (OtherError "OSError"))] |}).
Proof.
  split; [|split].
  - apply (proj1 (init_saves_png "python" "k1" 5 platform_saving "plot()"
                    [display_frame [("text/plain", JStr "<Figure>");
                                    ("image/png", JStr "a")];
                     result_frame [("text/plain", JStr "42")];
                     frame "execute_reply" "execute_reply" (JObj [])]
                    [("data", JObj [("text/plain", JStr "<Figure>");
                                    ("image/png", JStr "a")])]
                    [("text/plain", JStr "<Figure>"); ("image/png", JStr "a")]
                    (JStr "a") empty_state eq_refl eq_refl eq_refl)
             "PNG" "fig.png"); reflexivity.
  - apply (proj1 (proj2
             (init_saves_png "python" "k1" 5 platform_posix "plot()"
                [display_frame [("text/plain", JStr "<Figure>");
                                ("image/png", JStr "a")];
                 result_frame [("text/plain", JStr "42")];
                 frame "execute_reply" "execute_reply" (JObj [])]
                [("data", JObj [("text/plain", JStr "<Figure>");
                                ("image/png", JStr "a")])]
                [("text/plain", JStr "<Figure>"); ("image/png", JStr "a")]
                (JStr "a") empty_state eq_refl eq_refl eq_refl))
             TypeError); [|discriminate].
    right. exists "PNG". split; [reflexivity|]. by left.
  - apply (proj2 (proj2
             (init_saves_png "python" "k1" 5 platform_disk_full "plot()"
                [display_frame [("text/plain", JStr "<Figure>");
                                ("image/png", JStr "a")];
                 result_frame [("text/plain", JStr "42")];
                 frame "execute_reply" "execute_reply" (JObj [])]
                [("data", JObj [("text/plain", JStr "<Figure>");
                                ("image/png", JStr "a")])]
                [("text/plain", JStr "<Figure>"); ("image/png", JStr "a")]
                (JStr "a") empty_state eq_refl eq_refl eq_refl))
             "PNG" "fig.png" (OtherError "OSError"));
      (reflexivity || discriminate).
Defined.
